(** * qmblite: batch sender and post-processing helpers

    A shallow embedding of
    - [qmbmodels/senderscripts/batchsend.py] (class [BatchSender]), and
    - [qmbmodels/postprocessing/utils.py] ([_extract_disorder],
      [extract_single_model]),
    together with the parts of the Python runtime they call
    ([str.split], [str.find], [str.lstrip], [itertools.product], [dict],
    [os.path.join], [os.path.isdir], [os.mkdir]).

    Python strings are lists of characters, dictionaries are insertion
    ordered association lists, exceptions are an explicit result type, and
    the file system is a finite map that is threaded through the calls
    that touch it. *)

From Equations Require Import Equations.
From stdpp Require Import gmap strings list.
From Stdlib Require Import ZArith QArith Ascii.
Close Scope Q_scope.

(** ** Python strings *)

Abbreviation pystr := (list ascii).

(** String literals denote such lists. *)
Definition literal := list ascii.

Inductive pystr_lit := LNil | LCons (a : ascii) (s : pystr_lit).

Fixpoint lit_of_bytes (l : list Byte.byte) : pystr_lit :=
  match l with
  | [] => LNil
  | b :: l => LCons (ascii_of_byte b) (lit_of_bytes l)
  end.

Fixpoint bytes_of_lit (s : pystr_lit) : list Byte.byte :=
  match s with
  | LNil => []
  | LCons a s => byte_of_ascii a :: bytes_of_lit s
  end.

Declare Scope pystr_scope.
Delimit Scope pystr_scope with py.
#[warnings="-via-type-remapping,-via-type-mismatch"]
String Notation literal lit_of_bytes bytes_of_lit
  (via pystr_lit mapping [[nil] => LNil, [cons] => LCons]) : pystr_scope.
Open Scope pystr_scope.

(** ** Exceptions and results *)

Inductive exn :=
| ValueError
| IndexError
| UnboundLocalError
| FileExistsError
| FileNotFoundError
| NotADirectoryError
| AttributeError
| ConfigurationError.

Inductive result (A : Type) :=
| Return (a : A)
| Raise (e : exn).
Arguments Return {A} a.
Arguments Raise {A} e.

Definition bind_result {A B} (r : result A) (k : A → result B) : result B :=
  match r with
  | Return a => k a
  | Raise e => Raise e
  end.

(** A value together with the equation that names it, for the loops
    that go on behind what [find] returns. *)
Definition inspect {A} (a : A) : {b | a = b} := exist _ a eq_refl.

(** ** The builtins of [str] that the sources use *)

Module Py.

(** [s.startswith(pre)] *)
Fixpoint startswith (s pre : pystr) : bool :=
  match pre, s with
  | [], _ => true
  | _ :: _, [] => false
  | a :: pre', b :: s' => bool_decide (a = b) && startswith s' pre'
  end.

(** [s.endswith(suf)] *)
Definition endswith (s suf : pystr) : bool :=
  startswith (reverse s) (reverse suf).

(** [s.find(sub)], with [None] for Python's [-1]. *)
Fixpoint find (s sub : pystr) : option nat :=
  if startswith s sub then Some 0
  else match s with
       | [] => None
       | _ :: s' => S <$> find s' sub
       end.

(** [s.find(sub)] as the integer Python returns. *)
Definition find_Z (s sub : pystr) : Z :=
  match find s sub with
  | Some i => Z.of_nat i
  | None => (-1)%Z
  end.

(** [s.lstrip(chars)] and [s.rstrip(chars)] *)
Fixpoint lstrip (s chars : pystr) : pystr :=
  match s with
  | [] => []
  | a :: s' => if bool_decide (a ∈ chars) then lstrip s' chars else s
  end.

Definition rstrip (s chars : pystr) : pystr :=
  reverse (lstrip (reverse s) chars).

(** [sep.join(parts)] *)
Fixpoint join (sep : pystr) (parts : list pystr) : pystr :=
  match parts with
  | [] => []
  | [p] => p
  | p :: ps => p ++ sep ++ join sep ps
  end.

(** The call of a loop behind an occurrence is on a shorter string. *)
Ltac shorter_behind Hf :=
  let Hsw := fresh "Hsw" in
  let Hb := fresh "Hb" in
  assert (Hsw : ∀ (pre s : pystr),
             startswith s pre = true → length pre ≤ length s);
  [ clear; intros pre; induction pre as [|? ? IH]; intros [|? ?]; simpl;
    try done; try lia;
    intros [_ H]%andb_prop; apply IH in H; lia
  | assert (Hb : ∀ (s sub : pystr) i,
               find s sub = Some i → i + length sub ≤ length s);
    [ clear -Hsw; intros s sub; induction s as [|a s IH]; intros i;
      [ change (find [] sub) with (if startswith [] sub then Some 0 else None)
      | change (find (a :: s) sub)
          with (if startswith (a :: s) sub then Some 0 else S <$> find s sub) ];
      (destruct (startswith _ sub) eqn:Hp;
       [ intros ?; simplify_eq; by apply Hsw in Hp | ]);
      [ done
      | destruct (find s sub) as [j|] eqn:Hj; simpl; [|done];
        intros ?; simplify_eq; specialize (IH j eq_refl); lia ]
    | apply Hb in Hf; rewrite length_drop; simpl in *; lia ] ].

(** The loop of [s.split(sep)] for a non-empty separator [c :: sep']: cut
    at the first occurrence, continue behind it. *)
Equations? split_loop (c : ascii) (sep' s : pystr) : list pystr
  by wf (length s) lt :=
  split_loop c sep' s with inspect (find s (c :: sep')) := {
    | exist _ (Some i) Hf =>
        take i s :: split_loop c sep' (drop (i + length (c :: sep')) s)
    | exist _ None _ => [s] }.
Proof. shorter_behind Hf. Qed.

(** [s.split(sep)]: an empty separator is a [ValueError]. *)
Definition split (s sep : pystr) : result (list pystr) :=
  match sep with
  | [] => Raise ValueError
  | c :: sep' => Return (split_loop c sep' s)
  end.

(** The loop of [s.count(sub)] for a non-empty [sub]: occurrences are
    counted from the left and do not overlap. *)
Equations? count_loop (c : ascii) (sub' s : pystr) : nat
  by wf (length s) lt :=
  count_loop c sub' s with inspect (find s (c :: sub')) := {
    | exist _ (Some i) Hf =>
        S (count_loop c sub' (drop (i + length (c :: sub')) s))
    | exist _ None _ => 0 }.
Proof. shorter_behind Hf. Qed.

(** [s.count(sub)] *)
Definition count (s sub : pystr) : nat :=
  match sub with
  | [] => S (length s)
  | c :: sub' => count_loop c sub' s
  end.

(** Every index at which [sub] starts in [s], overlapping ones included. *)
Definition occurrences (s sub : pystr) : list nat :=
  filter (λ i, startswith (drop i s) sub = true) (seq 0 (S (length s))).

End Py.

(** ** The file system seen through [os] and [os.path]

    A location is the list of names from the root; the file system maps
    the locations that exist to the kind of node found there, and the root
    itself always is a directory.  Symbolic links and permissions are not
    part of the model. *)

Inductive node := Dir | File.

Global Instance node_eq_dec : EqDecision node.
Proof. solve_decision. Defined.

Abbreviation location := (list pystr).

Record world := World {
  files : gmap location node;
  cwd : location;
}.

Module os.

(** [os.sep] *)
Definition sep : ascii := "/"%char.

(** The pieces of a path between its slashes. *)
Fixpoint split_sep (p : pystr) : list pystr :=
  match p with
  | [] => [[]]
  | a :: p' =>
      if bool_decide (a = sep) then [] :: split_sep p'
      else match split_sep p' with
           | name :: names => (a :: name) :: names
           | [] => [[a]]
           end
  end.

(** The names of a path: the pieces that are not empty (doubled and
    trailing slashes name nothing). *)
Definition components (p : pystr) : list pystr :=
  filter (λ name, name ≠ []) (split_sep p).

(** Where the lookup of [p] starts. *)
Definition start (w : world) (p : pystr) : location :=
  if Py.startswith p [sep] then [] else cwd w.

(** Whether [loc] is a directory; the root is one. *)
Definition is_dir_at (m : gmap location node) (loc : location) : bool :=
  match loc with
  | [] => true
  | _ => bool_decide (m !! loc = Some Dir)
  end.

(** One name further: [.] stays, [..] goes up. *)
Definition step (cur : location) (name : pystr) : location :=
  if bool_decide (name = ".") then cur
  else if bool_decide (name = "..") then removelast cur
  else cur ++ [name].

(** A name is looked up in [loc] only when [loc] is a directory. *)
Definition check_dir (m : gmap location node) (loc : location) : result unit :=
  if is_dir_at m loc then Return ()
  else match m !! loc with
       | Some _ => Raise NotADirectoryError
       | None => Raise FileNotFoundError
       end.

(** Path resolution, name by name. *)
Fixpoint walk (m : gmap location node) (cur : location) (names : list pystr)
  : result location :=
  match names with
  | [] => Return cur
  | name :: names' =>
      bind_result (check_dir m cur) (λ _, walk m (step cur name) names')
  end.

(** [os.path.isdir(p)] *)
Definition path_isdir (w : world) (p : pystr) : bool :=
  match p with
  | [] => false
  | _ =>
      match walk (files w) (start w p) (components p) with
      | Return loc => is_dir_at (files w) loc
      | Raise _ => false
      end
  end.

(** The names before the last one, and the last one. *)
Definition unsnoc {A} (l : list A) : option (list A * A) :=
  match reverse l with
  | [] => None
  | x :: rinit => Some (reverse rinit, x)
  end.

(** [os.mkdir(p)]: the parent must be a directory and [p] must not
    exist. *)
Definition mkdir (w : world) (p : pystr) : result unit * world :=
  match p with
  | [] => (Raise FileNotFoundError, w)
  | _ =>
      match unsnoc (components p) with
      | None => (Raise FileExistsError, w)
      | Some (parents, name) =>
          match bind_result (walk (files w) (start w p) parents)
                  (λ par, bind_result (check_dir (files w) par)
                            (λ _, Return par)) with
          | Raise e => (Raise e, w)
          | Return par =>
              if bool_decide (name = "." ∨ name = "..") then
                (Raise FileExistsError, w)
              else
                match files w !! (par ++ [name]) with
                | Some _ => (Raise FileExistsError, w)
                | None =>
                    (Return (),
                     {| files := <[par ++ [name] := Dir]> (files w);
                        cwd := cwd w |})
                end
          end
      end
  end.

(** [os.path.join(a, *p)] of [posixpath]. *)
Definition path_join (a : pystr) (p : list pystr) : pystr :=
  fold_left
    (λ path b,
       if Py.startswith b [sep] then b
       else if bool_decide (path = []) || Py.endswith path [sep] then path ++ b
       else path ++ [sep] ++ b)
    p a.

End os.

(** ** [dict] and [itertools.product] *)

Module builtins.

(** A [dict]: keys in insertion order, no key twice. *)
Abbreviation pydict V := (list (pystr * V)).

(** [d.keys()] and [d.values()] *)
Definition keys {V} (d : pydict V) : list pystr := d.*1.
Definition values {V} (d : pydict V) : list V := d.*2.

(** [d[k] = v]: an existing key keeps its place. *)
Fixpoint setitem {V} (d : pydict V) (k : pystr) (v : V) : pydict V :=
  match d with
  | [] => [(k, v)]
  | (k', v') :: d' =>
      if bool_decide (k' = k) then (k, v) :: d' else (k', v') :: setitem d' k v
  end.

(** [d.get(k)] *)
Fixpoint get {V} (d : pydict V) (k : pystr) : option V :=
  match d with
  | [] => None
  | (k', v) :: d' => if bool_decide (k' = k) then Some v else get d' k
  end.

(** [d.update(pairs)] and [dict(pairs)] *)
Definition update {V} (d : pydict V) (pairs : list (pystr * V)) : pydict V :=
  fold_left (λ d kv, setitem d kv.1 kv.2) pairs d.

Definition dict {V} (pairs : list (pystr * V)) : pydict V :=
  update [] pairs.

(** [itertools.product] over the given pools, as the library documents it:
[[
    result = [[]]
    for pool in pools:
        result = [x+[y] for x in result for y in pool]
]] *)
Definition product {V} (pools : list (list V)) : list (list V) :=
  fold_left
    (λ result pool, x ← result; y ← pool; [x ++ [y]])
    pools [[]].

End builtins.

(** ** [senderscripts/batchsend.py] *)

Module batchsend.
Import builtins.

(** The keyword arguments of [run_jobs], with their defaults. *)
Record run_opts := RunOpts {
  queue : bool;
  time : pystr;
  nodes : Z;
  ntasks : Z;
  cputask : Z;
  memcpu : Z;
  module : pystr;
  sourcename : pystr;
  name : pystr;
}.

Definition default_opts : run_opts :=
  {| queue := false; time := "00:00:01"; nodes := 1; ntasks := 1;
     cputask := 1; memcpu := 4; module := "Anaconda3/5.3.0";
     sourcename := "python3imbrie"; name := "" |}.

Section BatchSender.

(** Parameter values, jobs and override tables.  [Job] is the constructor
    of the class [Job] that [prepjob.py] exports; it may raise. *)
Context {V J R : Type}.
Variable Job :
  pydict V → list pystr → list pystr → list pystr → R → result J.

(** The attributes of a [BatchSender]; [jobs] and [storage] are [None]
    until [prepare_jobs] and [prepare_folders] have set them, [__dict__]
    holds the attributes that [prepare_folders] adds by name. *)
Record BatchSender := {
  params : pydict (list V);
  _syspar_keys : list pystr;
  _modpar_keys : list pystr;
  _auxpar_keys : list pystr;
  cmd_opt : list pystr;
  slurm_opt : list pystr;
  _redef : R;
  jobs : option (list J);
  storage : option pystr;
  __dict__ : pydict pystr;
}.

(** [self.jobs = js] *)
Definition set_jobs (self : BatchSender) (js : list J) : BatchSender :=
  {| params := params self; _syspar_keys := _syspar_keys self;
     _modpar_keys := _modpar_keys self; _auxpar_keys := _auxpar_keys self;
     cmd_opt := cmd_opt self; slurm_opt := slurm_opt self;
     _redef := _redef self; jobs := Some js; storage := storage self;
     __dict__ := __dict__ self |}.

(** [self.storage = s] *)
Definition set_storage (self : BatchSender) (s : pystr) : BatchSender :=
  {| params := params self; _syspar_keys := _syspar_keys self;
     _modpar_keys := _modpar_keys self; _auxpar_keys := _auxpar_keys self;
     cmd_opt := cmd_opt self; slurm_opt := slurm_opt self;
     _redef := _redef self; jobs := jobs self; storage := Some s;
     __dict__ := __dict__ self |}.

(** [self.__dict__.update(d)], for a [d] whose keys name none of the
    attributes above. *)
Definition update_dict (self : BatchSender) (d : pydict pystr) : BatchSender :=
  {| params := params self; _syspar_keys := _syspar_keys self;
     _modpar_keys := _modpar_keys self; _auxpar_keys := _auxpar_keys self;
     cmd_opt := cmd_opt self; slurm_opt := slurm_opt self;
     _redef := _redef self; jobs := jobs self; storage := storage self;
     __dict__ := update (__dict__ self) d |}.

(** [if not os.path.isdir(p): os.mkdir(p)] *)
Definition ensure_dir (p : pystr) (w : world) : result unit * world :=
  if os.path_isdir w p then (Return (), w) else os.mkdir w p.

(** [tmp]: scratch scripts, [log]: logs, [results]: results, [log_deps]:
    logs of the dependency scripts. *)
Definition subdirs_list : list pystr := ["tmp"; "log"; "results"; "log_deps"].

(** The loop over [subdirs_list] in [prepare_folders]. *)
Fixpoint subdirs_loop (storage : pystr) (subdirs : list pystr)
    (subdirs_dict : pydict pystr) (w : world)
  : result (pydict pystr) * world :=
  match subdirs with
  | [] => (Return subdirs_dict, w)
  | subdir :: rest =>
      let sub_path := storage ++ "/" ++ subdir ++ "/" in
      let subdirs_dict := setitem subdirs_dict subdir sub_path in
      match ensure_dir sub_path w with
      | (Return _, w') => subdirs_loop storage rest subdirs_dict w'
      | (Raise e, w') => (Raise e, w')
      end
  end.

(** [prepare_folders(self, storage)] *)
Definition prepare_folders (self : BatchSender) (storage : pystr) (w : world)
  : result BatchSender * world :=
  let self := set_storage self storage in
  match ensure_dir storage w with
  | (Raise e, w') => (Raise e, w')
  | (Return _, w') =>
      match subdirs_loop storage subdirs_list [] w' with
      | (Raise e, w'') => (Raise e, w'')
      | (Return subdirs_dict, w'') => (Return (update_dict self subdirs_dict), w'')
      end
  end.

(** The loop over [it.product] in [prepare_jobs]; [acc] is the list
    [jobs] built so far. *)
Fixpoint jobs_loop (self : BatchSender) (keys : list pystr)
    (tuples : list (list V)) (acc : list J) : result (list J) :=
  match tuples with
  | [] => Return acc
  | i :: rest =>
      let add_items := dict (zip keys i) in
      bind_result
        (Job add_items (_syspar_keys self) (_modpar_keys self)
           (_auxpar_keys self) (_redef self))
        (λ job, jobs_loop self keys rest (acc ++ [job]))
  end.

(** [prepare_jobs(self)] *)
Definition prepare_jobs (self : BatchSender) : result BatchSender :=
  let keys := keys (params self) in
  let vals := values (params self) in
  bind_result (jobs_loop self keys (product vals) [])
    (λ js, Return (set_jobs self js)).

(** [BatchSender(params, syspar_keys, modpar_keys, auxpar_keys, storage,
    cmd_opt, slurm_opt, redef)] *)
Definition __init__ (params : pydict (list V))
    (syspar_keys modpar_keys auxpar_keys : list pystr) (storage : pystr)
    (cmd_opt slurm_opt : list pystr) (redef : R) (w : world)
  : result BatchSender * world :=
  let self :=
    {| params := params; _syspar_keys := syspar_keys;
       _modpar_keys := modpar_keys; _auxpar_keys := auxpar_keys;
       cmd_opt := cmd_opt; slurm_opt := slurm_opt; _redef := redef;
       jobs := None; storage := None; __dict__ := [] |} in
  match prepare_jobs self with
  | Raise e => (Raise e, w)
  | Return self => prepare_folders self storage w
  end.

(** [run_jobs]: [SubmittedScript] is the constructor of the class that
    [scriptsub.py] exports; it acts on the outside world [W] (scratch files,
    processes, the scheduler) and may raise.  The object it returns is bound
    to [script] and not used. *)
Context {M Script W : Type}.
Variable SubmittedScript :
  J → BatchSender → M → run_opts → W → result Script * W.

(** The loop over [self.jobs] in [run_jobs]. *)
Fixpoint run_loop (self : BatchSender) (mode : M) (opts : run_opts)
    (js : list J) (w : W) : result unit * W :=
  match js with
  | [] => (Return (), w)
  | job :: rest =>
      match SubmittedScript job self mode opts w with
      | (Return script, w') => run_loop self mode opts rest w'
      | (Raise e, w') => (Raise e, w')
      end
  end.

(** [run_jobs(self, mode, ...)] *)
Definition run_jobs (self : BatchSender) (mode : M) (opts : run_opts) (w : W)
  : result unit * W :=
  match jobs self with
  | None => (Raise AttributeError, w)
  | Some js => run_loop self mode opts js w
  end.

End BatchSender.

Arguments BatchSender : clear implicits.

End batchsend.

(** ** [postprocessing/utils.py] *)

Module utils.

Section extract_disorder.

(** [np.float], the builtin [float]: the number a string denotes, or
    [None] where Python raises [ValueError]. *)
Context {F : Type}.
Variable np_float : pystr → option F.

(** [_extract_disorder(string, disorder_key)] with [mode == 0], the
    default and the only mode the package's own file names use. *)
Definition _extract_disorder (string disorder_key : pystr)
  : result (pystr * F) :=
  let string := "_" ++ string in
  let disorder_key := Py.rstrip (Py.lstrip disorder_key "_") "_" in
  let disorder_key := "_" ++ disorder_key ++ "_" in
  bind_result (Py.split string disorder_key) (λ parts,
    match parts with
    | [rest1; dis_string] =>
        let splitter := Py.find_Z dis_string "_" in
        let '(disorder, rest2) :=
          if (splitter <? 0)%Z then (dis_string, "")
          else (take (Z.to_nat splitter) dis_string,
                drop (Z.to_nat splitter) dis_string) in
        match np_float disorder with
        | Some disorder =>
            let rest := Py.lstrip rest1 "_" ++ rest2 in
            Return (rest, disorder)
        | None => Raise ValueError
        end
    | _ => Raise ValueError
    end).

End extract_disorder.

Section extract_single_model.

(** [glob.glob]: the paths that match a pattern, in the order the
    operating system lists them. *)
Variable glob : world → pystr → list pystr.

(** [extract_single_model(topdir, descriptor, syspar, modpar)].  The local
    variable [file] is [None] while no assignment has bound it; a Python
    value is [None] or a string.  The second component is what the call
    prints. *)
Definition extract_single_model (topdir descriptor syspar modpar : pystr)
    (w : world) : result (option pystr) * list pystr :=
  let filepath := os.path_join topdir [descriptor; syspar; modpar] in
  let '(file, out) :=
    if os.path_isdir w filepath then
      match glob w (filepath ++ "/*.hdf5") with
      | f :: _ => (Some (Some f), [])
      | [] => (None, ["file in folder " ++ filepath ++ " not present!"])
      end
    else
      (Some None, ["folder " ++ filepath ++ " does not exist!"]) in
  match file with
  | Some v => (Return v, out)
  | None => (Raise UnboundLocalError, out)
  end.

End extract_single_model.

End utils.

(** ** The collaborators that are not among the sources *)

Module prepjob.
Import builtins.

(** Modelled from the spec: the attributes of the class [Job] of
    [senderscripts/prepjob.py], which is not among the sources: the value
    assigned to every key, the three role lists shared by the batch, and
    the override table. *)
Record Job (V R : Type) := {
  job_params : pydict V;
  syspar_keys : list pystr;
  modpar_keys : list pystr;
  auxpar_keys : list pystr;
  redef : R;
}.
Arguments job_params {V R} _.
Arguments syspar_keys {V R} _.
Arguments modpar_keys {V R} _.
Arguments auxpar_keys {V R} _.
Arguments redef {V R} _.

(** Modelled from the spec: the reserved seed keys of the Parameter
    Classifier, which [prepjob.py] would hold. *)
Definition seed_keys : list pystr := ["min_seed"; "max_seed"; "step_seed"].

(** Modelled from the spec: the number of role lists (system, module,
    auxiliary) that name the key [k]; the Parameter Classifier is not among
    the sources. *)
Definition roles (sys md aux : list pystr) (k : pystr) : nat :=
  length (filter (λ l, k ∈ l) [sys; md; aux]).

(** Modelled from the spec: the Parameter Classifier's test of one key,
    not among the sources: the key is in exactly one list, or it is a seed
    key that no list names. *)
Definition classified (sys md aux : list pystr) (k : pystr) : bool :=
  bool_decide (roles sys md aux k = 1)
  || bool_decide (k ∈ seed_keys ∧ roles sys md aux k = 0).

(** Modelled from the spec: the constructor of [Job], not among the
    sources, with the Parameter Classifier's check of every key it is
    given; a key that fails it is a configuration error. *)
Definition Job_init {V R} (params : pydict V)
    (sys md aux : list pystr) (rd : R) : result (Job V R) :=
  if forallb (classified sys md aux) (keys params) then
    Return {| job_params := params; syspar_keys := sys; modpar_keys := md;
              auxpar_keys := aux; redef := rd |}
  else Raise ConfigurationError.

(** Modelled from the spec: the system and module keys of a [Job] with
    their values, in the caller's order; [Job.descriptor] is not among the
    sources. *)
Definition descriptor_pairs {V R} (job : Job V R) : list (pystr * V) :=
  omap (λ k, pair k <$> get (job_params job) k)
       (syspar_keys job ++ modpar_keys job).

(** Modelled from the spec: the descriptor format, which [prepjob.py]
    would produce: [key_value] pairs joined by underscores; [str] renders
    a value. *)
Definition key_values {V} (str : V → pystr) (pairs : list (pystr * V))
  : pystr :=
  Py.join "_" (map (λ kv, kv.1 ++ "_" ++ str kv.2) pairs).

(** Modelled from the spec: [Job.descriptor], not among the sources: the
    [key_value] pairs of the system and module keys. *)
Definition descriptor {V R} (str : V → pystr) (job : Job V R) : pystr :=
  key_values str (descriptor_pairs job).

End prepjob.

Module scriptsub.
Import builtins.

(** Modelled from the spec: what a dispatch ends in (section 4.6,
    [Accepted] with the submission id of the queued mode, or [Rejected]);
    [scriptsub.py] is not among the sources. *)
Inductive outcome :=
| Accepted (id : option Z)
| Rejected.

(** Modelled from the spec: the two modes of the Batch Runner;
    [scriptsub.py] is not among the sources. *)
Inductive run_mode := Local | Queued.

Section SubmittedScript.

Context {J B Text O : Type}.
(** The descriptor of a job, the Script Generator and the execution
    backend (a local process or the scheduler, acting on [O]). *)
Variable descriptor : J → pystr.
Variable render : J → run_mode → batchsend.run_opts → Text.
Variable dispatch : Text → run_mode → O → outcome * O.

(** Modelled from the spec: the world of the Batch Runner: what is outside
    the program, and the per-job record of dispatch outcomes keyed by
    descriptor; [scriptsub.py] is not among the sources. *)
Record runner_world := {
  outside : O;
  ledger : list (pystr * outcome);
}.

(** Modelled from the spec: the constructor of [SubmittedScript], not among
    the sources: render the script of the job, dispatch it, and record the
    outcome under the job's descriptor; a rejected dispatch is recorded,
    not raised. *)
Definition SubmittedScript (job : J) (self : B) (mode : run_mode)
    (opts : batchsend.run_opts) (w : runner_world)
  : result Text * runner_world :=
  let script := render job mode opts in
  let '(o, out) := dispatch script mode (outside w) in
  (Return script,
   {| outside := out; ledger := ledger w ++ [(descriptor job, o)] |}).

(** Modelled from the spec: the outcomes of dispatching the jobs one after
    the other, each in the world its predecessors left; a reference for the
    ledger, [scriptsub.py] not being among the sources. *)
Fixpoint outcomes (mode : run_mode) (opts : batchsend.run_opts)
    (js : list J) (o : O) : list outcome * O :=
  match js with
  | [] => ([], o)
  | job :: rest =>
      let '(r, o') := dispatch (render job mode opts) mode o in
      let '(rs, o'') := outcomes mode opts rest o' in
      (r :: rs, o'')
  end.

End SubmittedScript.

Arguments runner_world : clear implicits.

End scriptsub.

(** ** Concrete parameter values *)

Module pyvalues.

(** A [float] in the range where Python prints it positionally, given by
    the digits printed: [1.0] is [PyFloat false 1 (D0 Nil)]. *)
Inductive pyval :=
| PyBool (b : bool)
| PyInt (n : Z)
| PyFloat (negative : bool) (whole : N) (frac : Decimal.uint)
| PyStr (s : pystr).

Fixpoint uint_str (u : Decimal.uint) : pystr :=
  match u with
  | Decimal.Nil => ""
  | Decimal.D0 u => "0" ++ uint_str u
  | Decimal.D1 u => "1" ++ uint_str u
  | Decimal.D2 u => "2" ++ uint_str u
  | Decimal.D3 u => "3" ++ uint_str u
  | Decimal.D4 u => "4" ++ uint_str u
  | Decimal.D5 u => "5" ++ uint_str u
  | Decimal.D6 u => "6" ++ uint_str u
  | Decimal.D7 u => "7" ++ uint_str u
  | Decimal.D8 u => "8" ++ uint_str u
  | Decimal.D9 u => "9" ++ uint_str u
  end.

Definition int_str (i : Decimal.int) : pystr :=
  match i with
  | Decimal.Pos u => uint_str u
  | Decimal.Neg u => "-" ++ uint_str u
  end.

(** [str(v)] *)
Definition str (v : pyval) : pystr :=
  match v with
  | PyBool true => "True"
  | PyBool false => "False"
  | PyInt n => int_str (Z.to_int n)
  | PyFloat neg whole frac =>
      (if neg then "-" else "") ++ uint_str (N.to_uint whole)
        ++ "." ++ uint_str frac
  | PyStr s => s
  end.

Definition digit_of (a : ascii) : option N :=
  let n := N_of_ascii a in
  if (48 <=? n)%N && (n <=? 57)%N then Some (n - 48)%N else None.

Fixpoint digits_val (acc : N) (s : pystr) : option N :=
  match s with
  | [] => Some acc
  | a :: s' => d ← digit_of a; digits_val (10 * acc + d)%N s'
  end.

(** [float(s)] on the plain decimal literals, a part of what [float]
    accepts: an optional sign, digits, and an optional point with digits.
    The value is the exact rational; binary rounding is not modelled. *)
Definition float_of_decimal (s : pystr) : option Q :=
  let '(neg, body) :=
    match s with
    | "-"%char :: b => (true, b)
    | "+"%char :: b => (false, b)
    | _ => (false, s)
    end in
  let '(ip, fp) :=
    match Py.find body "." with
    | Some i => (take i body, drop (S i) body)
    | None => (body, [])
    end in
  match ip ++ fp with
  | [] => None
  | ds =>
      n ← digits_val 0 ds;
      Some (Qred (Qmake (if neg then - Z.of_N n else Z.of_N n)
                        (Z.to_pos (10 ^ Z.of_nat (length fp)))))
  end.

End pyvalues.

(** * More of the sources *)

(** ** More exceptions, and the rest of the builtins *)

(** The exceptions above, and those that only the code below raises. *)
Inductive exception :=
| Known (e : exn)
| TypeError
| KeyError.

Inductive outcome (A : Type) :=
| Done (a : A)
| Fail (e : exception).
Arguments Done {A} a.
Arguments Fail {A} e.

Definition bind_outcome {A B} (r : outcome A) (k : A → outcome B)
  : outcome B :=
  match r with
  | Done a => k a
  | Fail e => Fail e
  end.

(** A result as an outcome. *)
Definition known {A} (r : result A) : outcome A :=
  match r with
  | Return a => Done a
  | Raise e => Fail (Known e)
  end.

Module Py2.
Import Py.

(** [sub in s] *)
Definition contains (s sub : pystr) : bool :=
  match find s sub with
  | Some _ => true
  | None => false
  end.

(** The loop of [s.replace(old, new)] for a non-empty [old]: every
    occurrence, found from the left without overlap, gives way to
    [new]. *)
Equations? replace_loop (c : ascii) (old' new s : pystr) : pystr
  by wf (length s) lt :=
  replace_loop c old' new s with inspect (find s (c :: old')) := {
    | exist _ (Some i) Hf =>
        take i s ++ new
          ++ replace_loop c old' new (drop (i + length (c :: old')) s)
    | exist _ None _ => s }.
Proof. shorter_behind Hf. Qed.

(** [s.replace(old, new)]; an empty [old] matches before every character
    and at the end. *)
Definition replace (s old new : pystr) : pystr :=
  match old with
  | [] => new ++ (a ← s; a :: new)
  | c :: old' => replace_loop c old' new s
  end.

(** [l[idx]] for a list and an integer, negative ones counting from the
    end. *)
Definition getitem {A} (l : list A) (idx : Z) : outcome A :=
  let n := Z.of_nat (length l) in
  let i := if (idx <? 0)%Z then (idx + n)%Z else idx in
  if (i <? 0)%Z || (n <=? i)%Z then Fail (Known IndexError)
  else match l !! Z.to_nat i with
       | Some x => Done x
       | None => Fail (Known IndexError)
       end.

(** [l[idx]] where [idx] may be [None], which is no index. *)
Definition getitem_any {A} (l : list A) (idx : option Z) : outcome A :=
  match idx with
  | None => Fail TypeError
  | Some i => getitem l i
  end.

(** [list(enumerate(l))] *)
Definition enumerate {A} (l : list A) : list (nat * A) :=
  imap (λ i x, (i, x)) l.

(** [d[k]] for a dict *)
Definition dict_getitem {V} (d : builtins.pydict V) (k : pystr) : outcome V :=
  match builtins.get d k with
  | Some v => Done v
  | None => Fail KeyError
  end.

(** [[f(x) for x in l]] where [f] may raise *)
Fixpoint comprehension {A B} (f : A → outcome B) (l : list A)
  : outcome (list B) :=
  match l with
  | [] => Done []
  | x :: l' =>
      bind_outcome (f x) (λ y,
        bind_outcome (comprehension f l') (λ ys, Done (y :: ys)))
  end.

End Py2.

(** ** The rest of [postprocessing/utils.py] *)

(** A value that is a mapping or is none: what [delete_keys_from_dict]
    tells apart with [isinstance(value, MutableMapping)].  The mappings
    nested in a dictionary are taken to be distinct objects, so that
    changing one in place changes no other. *)
#[warnings="-register-all"]
Inductive pyobj (A : Type) :=
| Atom (a : A)
| Mapping (d : list (pystr * pyobj A)).
Arguments Atom {A} a.
Arguments Mapping {A} d.

Module utils2.
Import builtins Py Py2.

Section extract_disorder_1.

Context {F : Type}.
Variable np_float : pystr → option F.

(** The list comprehension of mode 1: the pieces, with their indices,
    that contain [markers[1]], which is looked up for every piece. *)
Fixpoint pieces_with (markers : list pystr) (pieces : list (nat * pystr))
  : outcome (list (nat * pystr)) :=
  match pieces with
  | [] => Done []
  | (i, subs) :: rest =>
      bind_outcome (getitem markers 1) (λ m1,
        bind_outcome (pieces_with markers rest) (λ found,
          Done (if contains subs m1 then (i, subs) :: found else found)))
  end.

(** [_extract_disorder(string, disorder_key, mode=1, idx)], where
    [disorder_key] is the list of the two markers. *)
Definition _extract_disorder_1 (string : pystr) (disorder_key : list pystr)
    (idx : option Z) : outcome (pystr * F) :=
  let markers := disorder_key in
  let markers := (λ marker, rstrip (lstrip marker "_") "_") <$> markers in
  bind_outcome (getitem markers 0) (λ m0,
  bind_outcome (known (split string m0)) (λ substrings,
  bind_outcome (pieces_with markers (enumerate substrings)) (λ found,
  bind_outcome (getitem_any found idx) (λ substring,
  bind_outcome (getitem markers 1) (λ m1,
  bind_outcome (known (split substring.2 m1)) (λ parts,
  bind_outcome (getitem parts 0) (λ dis_string,
    let dis_string_ := dis_string ++ m1 in
    let substring1 := replace substring.2 dis_string_ "" in
    let substrings := <[substring.1 := substring1]> substrings in
    let dis_string := replace dis_string "d" "e" in
    let dis_string := lstrip (rstrip dis_string "_") "_" in
    match np_float dis_string with
    | Some disorder => Done (join m0 substrings, disorder)
    | None => Fail (Known ValueError)
    end))))))).

End extract_disorder_1.

Section delete_keys.

Context {A : Type}.

(** [del d[key]], or [None] where it raises [KeyError]. *)
Definition delitem {V} (d : pydict V) (key : pystr) : option (pydict V) :=
  match get d key with
  | Some _ => Some (filter (λ kv, kv.1 ≠ key) d)
  | None => None
  end.

(** The first loop of [delete_keys_from_dict]: every key is deleted, a
    [KeyError] is suppressed. *)
Definition del_loop {V} (d : pydict V) (keys : list pystr) : pydict V :=
  fold_left
    (λ d key, match delitem d key with Some d' => d' | None => d end)
    keys d.

(** The number of nodes of a value, and of the values of a dictionary. *)
Fixpoint obj_size (o : pyobj A) : nat :=
  match o with
  | Atom _ => 1
  | Mapping d => S (list_sum ((λ kv, obj_size kv.2) <$> d))
  end.

Definition dict_size (d : pydict (pyobj A)) : nat :=
  list_sum ((λ kv, obj_size kv.2) <$> d).

(** A loop over a list whose body knows that its element is in the
    list. *)
Fixpoint map_in {X Y} (l : list X) : (∀ x, x ∈ l → Y) → list Y :=
  match l with
  | [] => λ _, []
  | x :: l' => λ f,
      f x (list_elem_of_here x l')
        :: map_in l' (λ y Hy, f y (list_elem_of_further y x l' Hy))
  end.

(** [delete_keys_from_dict(dictionary, keys)]: the keys are deleted from
    the dictionary, then from every value that is a mapping. *)
Equations? delete_keys_from_dict (dictionary : pydict (pyobj A))
    (keys : list pystr) : pydict (pyobj A)
  by wf (dict_size dictionary) lt :=
  delete_keys_from_dict dictionary keys :=
    map_in (del_loop dictionary keys)
      (λ kv Hin,
         match kv.2 as value return kv.2 = value → _ with
         | Mapping d => λ Hv, (kv.1, Mapping (delete_keys_from_dict d keys))
         | Atom a => λ _, kv
         end eq_refl).
Proof.
  assert (Hsub : ∀ (ks : list pystr) (D : pydict (pyobj A)) x,
             x ∈ del_loop D ks → x ∈ D).
  { clear. induction ks as [|k ks IH]; intros D x; [done|]. cbn [del_loop fold_left].
    intros Hx%IH. unfold delitem in Hx. destruct (get D k); [|done].
    by apply list_elem_of_filter in Hx as [_ ?]. }
  apply Hsub in Hin. clear Hsub delete_keys_from_dict.
  unfold dict_size. induction dictionary as [|y D IH]; [by apply elem_of_nil in Hin|].
  rewrite fmap_cons. change (list_sum (?n :: ?ns)) with (n + list_sum ns).
  apply elem_of_cons in Hin as [<-|Hin].
  - cbn beta. rewrite Hv. cbn [obj_size]. lia.
  - specialize (IH Hin). lia.
Qed.

End delete_keys.

End utils2.

(** ** [mainscripts/main_lvl_var_partial.py] *)

Module main_lvl_var_partial.
Import builtins Py2.

(** The keys of [_sff_parse_dict], in its order. *)
Definition _sff_parse_dict_keys : list pystr :=
  ["lvl_min_tau"; "lvl_max_tau"; "lvl_n_tau"; "lvl_unfolding_n"].

(** [a, b, c, d, e, f = l] *)
Definition unpack6 {A} (l : list A) : outcome (A * A * A * A * A * A) :=
  match l with
  | [a; b; c; d; e; f] => Done (a, b, c, d, e, f)
  | _ => Fail (Known ValueError)
  end.

Section main.

(** The values of the command line, what else the parsers return, and
    what the script ends in.  [arg_parser_general] and [arg_parser] belong
    to [qmbmodels.utils.cmd_parser_tools]: here they are the outcomes of
    their two calls.  [body] is the script from the first [print] on, which
    opens the [.hdf5] file and computes on it. *)
Context {V E T : Type}.
Variable arg_parser_general : outcome (pydict V * E).
Variable arg_parser : outcome (pydict V * E).
Variable body : V * V * V * V * V * V → pydict V → pydict V → outcome T.

(** The block under [if __name__ == '__main__':]. *)
Definition main : outcome T :=
  bind_outcome arg_parser_general (λ '(sffDict, sffextra),
  bind_outcome arg_parser (λ '(argsDict, extra),
  bind_outcome
    (comprehension (λ key, dict_getitem sffDict key) _sff_parse_dict_keys)
    (λ values,
  bind_outcome (unpack6 values) (λ six, body six sffDict argsDict)))).

End main.

End main_lvl_var_partial.

(** * The vocabulary of the properties *)

Module vocabulary.
Import builtins batchsend.

(** ** Expansion *)

(** One round of the loop in [product]. *)
Definition extend {V} (acc : list (list V)) (pool : list V) : list (list V) :=
  x ← acc; y ← pool; [x ++ [y]].

(** The Cartesian product of the value lists in the declared key order:
    the first key varies slowest, the last one fastest, and every
    assignment lists the keys in their declared order. *)
Fixpoint enumerate {V} (params : pydict (list V)) : list (pydict V) :=
  match params with
  | [] => [[]]
  | (k, vs) :: rest => v ← vs; ((k, v) ::.) <$> enumerate rest
  end.

(** The product of the lengths of the value lists. *)
Definition value_count {V} (params : pydict (list V)) : nat :=
  foldr (λ kv n, length kv.2 * n) 1 params.

(** The parameters whose key is no seed key. *)
Definition nonseed {V} (params : pydict (list V)) : pydict (list V) :=
  filter (λ kv, kv.1 ∉ prepjob.seed_keys) params.

(** What [prepare_jobs] hands to [Job], tuple by tuple. *)
Definition assignments {V} (params : pydict (list V)) : list (pydict V) :=
  (λ i, dict (zip (keys params) i)) <$> product (values params).

(** The call of [Job] that [prepare_jobs] makes for an assignment. *)
Definition make {V J R}
    (Job : pydict V → list pystr → list pystr → list pystr → R → result J)
    (self : BatchSender V J R) (a : pydict V) : result J :=
  Job a (_syspar_keys self) (_modpar_keys self) (_auxpar_keys self)
    (_redef self).

(** The jobs a run of [prepare_jobs] stores, or the exception it raises. *)
Definition stored_jobs {V J R} (r : result (BatchSender V J R))
  : result (option (list J)) :=
  match r with
  | Return self => Return (jobs self)
  | Raise e => Raise e
  end.

(** ** Folders *)

(** The path of a subdirectory as [prepare_folders] writes it. *)
Definition sub_path (storage subdir : pystr) : pystr :=
  storage ++ "/" ++ subdir ++ "/".

(** The location that a path names, whether something is there or not. *)
Definition locate (w : world) (p : pystr) : result location :=
  os.walk (files w) (os.start w p) (os.components p).

(** The dict that the loop of [prepare_folders] builds. *)
Definition subdirs_of (storage : pystr) (subdirs : list pystr)
    (d : pydict pystr) : pydict pystr :=
  fold_left (λ d subdir, setitem d subdir (sub_path storage subdir)) subdirs d.

(** ** Descriptors *)

(** A token holds no underscore. *)
Definition plain (t : pystr) : Prop := "_"%char ∉ t.

(** A key or a rendered value that the format can carry: not empty, and
    free of underscores. *)
Definition word (t : pystr) : Prop := t ≠ [] ∧ plain t.

(** The tokens, each behind an underscore: ["_" + "_".join(toks)]. *)
Definition underscored (toks : list pystr) : pystr :=
  concat (("_" ++.) <$> toks).

(** The characters before the first underscore. *)
Fixpoint token (s : pystr) : pystr :=
  match s with
  | [] => []
  | a :: s' => if bool_decide (a = "_"%char) then [] else a :: token s'
  end.

(** Where [x] is empty or starts with an underscore. *)
Definition at_boundary (x : pystr) : Prop := x = [] ∨ ∃ x', x = "_"%char :: x'.

(** The keys and the rendered values of a descriptor, in its order. *)
Definition tokens {V} (str : V → pystr) (pairs : list (pystr * V))
  : list pystr :=
  kv ← pairs; [kv.1; str kv.2].

(** The key as [_extract_disorder] looks for it: stripped of the
    underscores around it, then put between two. *)
Definition delimited (k : pystr) : pystr :=
  "_" ++ Py.rstrip (Py.lstrip k "_") "_" ++ "_".

(** The text behind the occurrence of the key that starts at [i]. *)
Definition behind (s k : pystr) (i : nat) : pystr :=
  drop (i + length (delimited k)) ("_" ++ s).

(** What [_extract_disorder] does with the two parts of the split. *)
Definition finish {F} (np_float : pystr → option F)
    (rest1 dis_string : pystr) : result (pystr * F) :=
  match np_float (token dis_string) with
  | Some d =>
      Return (Py.lstrip rest1 "_"
                ++ drop (length (token dis_string)) dis_string, d)
  | None => Raise ValueError
  end.

End vocabulary.

(** * Running examples *)

Module examples.
Import builtins batchsend pyvalues.

(** The floats [1.0] and [2.0]. *)
Definition f1_0 : pyval := PyFloat false 1 (Decimal.D0 Decimal.Nil).
Definition f2_0 : pyval := PyFloat false 2 (Decimal.D0 Decimal.Nil).

(** The plainest constructor: a job is the assignment it is given. *)
Definition keep_items {V R} (add_items : pydict V)
    (sys md aux : list pystr) (rd : R) : result (pydict V) :=
  Return add_items.

(** A sender before [prepare_jobs], as [__init__] sets it up. *)
Definition sender {V J R} (params : pydict (list V))
    (sys md aux : list pystr) (rd : R) : BatchSender V J R :=
  {| params := params; _syspar_keys := sys; _modpar_keys := md;
     _auxpar_keys := aux; cmd_opt := []; slurm_opt := []; _redef := rd;
     jobs := None; storage := None; __dict__ := [] |}.

(** [{L: [8, 10], dW: [1.0, 2.0]}] *)
Definition params_L_dW : pydict (list pyval) :=
  [("L", [PyInt 8; PyInt 10]); ("dW", [f1_0; f2_0])].

(** [{L: [8, 10], min_seed: [1], max_seed: [10]}] *)
Definition params_seed_range : pydict (list pyval) :=
  [("L", [PyInt 8; PyInt 10]); ("min_seed", [PyInt 1]); ("max_seed", [PyInt 10])].

(** [{L: [8, 10], min_seed: [1, 2]}] *)
Definition params_two_seeds : pydict (list pyval) :=
  [("L", [PyInt 8; PyInt 10]); ("min_seed", [PyInt 1; PyInt 2])].

(** [{L: [8, 10], dW: []}] *)
Definition params_empty_list : pydict (list pyval) :=
  [("L", [PyInt 8; PyInt 10]); ("dW", [])].

(** An empty file system, the process at its root. *)
Definition empty_world : world := {| files := ∅; cwd := [] |}.

(** The sender of the example [{L: [8, 10], dW: [1.0, 2.0]}] with system
    keys [[L]] and module keys [[dW]]. *)
Definition sender_L_dW : BatchSender pyval (prepjob.Job pyval unit) unit :=
  sender params_L_dW ["L"] ["dW"] [] ().

(** A job of that sender, given by its assignment. *)
Definition job_of (a : pydict pyval) : prepjob.Job pyval unit :=
  {| prepjob.job_params := a; prepjob.syspar_keys := ["L"];
     prepjob.modpar_keys := ["dW"]; prepjob.auxpar_keys := [];
     prepjob.redef := () |}.

(** The job with the descriptor [L_8_dW_1.0]. *)
Definition job_L_8_dW_1_0 : prepjob.Job pyval unit :=
  job_of [("L", PyInt 8); ("dW", f1_0)].

(** Three of the jobs of the example. *)
Definition three_jobs : list (prepjob.Job pyval unit) :=
  job_of <$> [[("L", PyInt 8); ("dW", f1_0)];
              [("L", PyInt 8); ("dW", f2_0)];
              [("L", PyInt 10); ("dW", f1_0)]].

(** A job with a parameter that is no number. *)
Definition job_with_name : prepjob.Job pyval unit :=
  {| prepjob.job_params := [("L", PyInt 8); ("disorder", PyStr "uniform")];
     prepjob.syspar_keys := ["L"]; prepjob.modpar_keys := ["disorder"];
     prepjob.auxpar_keys := []; prepjob.redef := () |}.

(** A backend that rejects the script of [L_8_dW_2.0] and accepts the
    others, counting the submissions. *)
Definition rejecting_backend (script : pystr) (mode : scriptsub.run_mode)
    (next_id : Z) : scriptsub.outcome * Z :=
  if bool_decide (script = "L_8_dW_2.0") then (scriptsub.Rejected, next_id)
  else (scriptsub.Accepted (Some next_id), (next_id + 1)%Z).

(** A results tree in which the folder of one model exists and is
    empty. *)
Definition results_world : world :=
  {| files := {[ ["results"] := Dir; ["results"; "xxz"] := Dir;
                 ["results"; "xxz"; "L_8"] := Dir;
                 ["results"; "xxz"; "L_8"; "dW_1.0"] := Dir ]};
     cwd := [] |}.

End examples.


(** ** The vocabulary of the further properties *)

Module vocabulary2.
Import builtins.

(** One value per key, each from the list of its key. *)
Definition chooses {V} (a : pydict V) (params : pydict (list V)) : Prop :=
  Forall2 (λ kv kvs, kv.1 = kvs.1 ∧ kv.2 ∈ kvs.2) a params.

(** What [delete_keys_from_dict] makes of a value. *)
Definition pruned {A} (keys : list pystr) (value : pyobj A) : pyobj A :=
  match value with
  | Mapping d => Mapping (utils2.delete_keys_from_dict d keys)
  | Atom a => Atom a
  end.

(** The keys of a dictionary and of the mappings in it, at any depth. *)
Fixpoint keys_within {A} (o : pyobj A) : list pystr :=
  match o with
  | Atom _ => []
  | Mapping d => kv ← d; kv.1 :: keys_within kv.2
  end.

(** [d[k1][k2]...[kn]], or [None] where a key is missing or a value on the
    way is no mapping. *)
Fixpoint path_get {A} (o : pyobj A) (path : list pystr) : option (pyobj A) :=
  match path with
  | [] => Some o
  | k :: path' =>
      match o with
      | Mapping d => v ← get d k; path_get v path'
      | Atom _ => None
      end
  end.


(** A marker as mode 1 uses it: without the underscores around it. *)
Definition bare (marker : pystr) : pystr :=
  Py.rstrip (Py.lstrip marker "_") "_".

End vocabulary2.

(** ** Further examples *)

Module examples2.
Import builtins batchsend pyvalues.

(** A job with the seed keys among its module keys; its descriptor is
    [L_8_dW_1.0_min_seed_1_max_seed_10]. *)
Definition job_with_seeds : prepjob.Job pyval unit :=
  {| prepjob.job_params :=
       [("L", PyInt 8); ("dW", examples.f1_0); ("min_seed", PyInt 1);
        ("max_seed", PyInt 10)];
     prepjob.syspar_keys := ["L"];
     prepjob.modpar_keys := ["dW"; "min_seed"; "max_seed"];
     prepjob.auxpar_keys := []; prepjob.redef := () |}.

(** A job in which the value of one key reads as another key; its
    descriptor is [mode_W_W_1.0]. *)
Definition job_value_is_key : prepjob.Job pyval unit :=
  {| prepjob.job_params := [("mode", PyStr "W"); ("W", examples.f1_0)];
     prepjob.syspar_keys := ["mode"]; prepjob.modpar_keys := ["W"];
     prepjob.auxpar_keys := []; prepjob.redef := () |}.

(** A job with a key that ends in an underscore; its descriptor is
    [L_8_x__1.0]. *)
Definition job_key_ends_in_underscore : prepjob.Job pyval unit :=
  {| prepjob.job_params := [("L", PyInt 8); ("x_", examples.f1_0)];
     prepjob.syspar_keys := ["L"]; prepjob.modpar_keys := ["x_"];
     prepjob.auxpar_keys := []; prepjob.redef := () |}.

(** A storage root [store] in which a regular file has the name
    [log]. *)
Definition blocked_world : world :=
  {| files := {[ ["store"] := Dir; ["store"; "log"] := File ]}; cwd := [] |}.

End examples2.

(** * Proofs *)

(** ** Facts about the builtins of [str] *)

Module PyFacts.
Import Py.

Lemma startswith_length s pre :
  startswith s pre = true → length pre ≤ length s.
Proof.
  revert s. induction pre as [|b pre IH]; intros [|c s]; simpl; try done; try lia.
  intros [_ H]%andb_prop. apply IH in H. lia.
Qed.

Lemma find_nil sub : find [] sub = if startswith [] sub then Some 0 else None.
Proof. done. Qed.

Lemma find_cons a s sub :
  find (a :: s) sub = if startswith (a :: s) sub then Some 0 else S <$> find s sub.
Proof. done. Qed.

Lemma find_bound s sub i : find s sub = Some i → i + length sub ≤ length s.
Proof.
  revert i. induction s as [|a s IH]; intros i.
  - rewrite find_nil. destruct (startswith [] sub) eqn:Hp; [|done].
    intros ?; simplify_eq. by apply startswith_length in Hp.
  - rewrite find_cons. destruct (startswith (a :: s) sub) eqn:Hp.
    + intros ?; simplify_eq. by apply startswith_length in Hp.
    + destruct (find s sub) as [j|] eqn:Hj; simpl; [|done].
      intros ?; simplify_eq. specialize (IH j eq_refl). lia.
Qed.

Lemma split_loop_unfold c sep' s :
  split_loop c sep' s =
  match find s (c :: sep') with
  | Some i => take i s :: split_loop c sep' (drop (i + length (c :: sep')) s)
  | None => [s]
  end.
Proof.
  funelim (split_loop c sep' s).
  - by rewrite Hf.
  - by rewrite e.
Qed.

Lemma count_loop_unfold c sub' s :
  count_loop c sub' s =
  match find s (c :: sub') with
  | Some i => S (count_loop c sub' (drop (i + length (c :: sub')) s))
  | None => 0
  end.
Proof.
  funelim (count_loop c sub' s).
  - by rewrite Hf.
  - by rewrite e.
Qed.

Lemma startswith_nil s : startswith s [] = true.
Proof. by destruct s. Qed.

Lemma startswith_cons a s b t :
  startswith (a :: s) (b :: t) = bool_decide (b = a) && startswith s t.
Proof. done. Qed.

Lemma startswith_app s t : startswith (s ++ t) s = true.
Proof.
  induction s as [|a s IH]; [by destruct t|]. simpl.
  by rewrite bool_decide_eq_true_2.
Qed.

Lemma find_startswith s t : startswith s t = true → find s t = Some 0.
Proof. intros H. destruct s; [rewrite find_nil|rewrite find_cons]; by rewrite H. Qed.

(** [len(s.split(sep)) == s.count(sep) + 1] *)
Lemma split_loop_length c sep' s :
  length (split_loop c sep' s) = S (count_loop c sep' s).
Proof.
  funelim (split_loop c sep' s).
  - rewrite (count_loop_unfold c sep' s), Hf. simpl. f_equal.
    match goal with IH : length _ = _ |- _ => apply IH end.
  - by rewrite (count_loop_unfold c sep' s), e.
Qed.

End PyFacts.
(** ** Facts about the builtins *)

Module builtins_facts.
Import builtins vocabulary.

Section product.
Context {V : Type}.
Implicit Types (pool : list V) (pools acc : list (list V)).


Lemma product_fold pools : product pools = fold_left extend pools [[]].
Proof. done. Qed.

Lemma bind_unit_length {A B} (f : A → B) (l : list A) :
  length (y ← l; [f y]) = length l.
Proof. induction l as [|y l IH]; [done|]. rewrite bind_cons. simpl. by f_equal. Qed.

Lemma extend_length acc pool :
  length (extend acc pool) = length acc * length pool.
Proof.
  unfold extend. induction acc as [|x acc IH]; [done|].
  rewrite bind_cons, length_app, IH, bind_unit_length. simpl. lia.
Qed.

Lemma fold_extend_length pools acc :
  length (fold_left extend pools acc)
  = length acc * foldr (λ pool n, length pool * n) 1 pools.
Proof.
  revert acc. induction pools as [|pool pools IH]; intros acc; cbn [fold_left foldr]; [lia|].
  rewrite IH, extend_length. lia.
Qed.

(** [len(list(product(pools)))] is the product of the pools' lengths. *)
Lemma product_length pools :
  length (product pools) = foldr (λ pool n, length pool * n) 1 pools.
Proof. rewrite product_fold, fold_extend_length. simpl. lia. Qed.

Lemma extend_nil_l pool : extend [] pool = [].
Proof. done. Qed.

Lemma extend_nil_r acc : extend acc [] = [].
Proof. unfold extend. induction acc as [|x acc IH]; [done|]. by rewrite bind_cons. Qed.

Lemma fold_extend_nil pools : fold_left extend pools [] = [].
Proof. induction pools as [|pool pools IH]; [done|]. cbn [fold_left]. by rewrite extend_nil_l. Qed.

(** An empty pool anywhere leaves no tuple. *)
Lemma product_empty_pool pools : [] ∈ pools → product pools = [].
Proof.
  rewrite product_fold. generalize ([[]] : list (list V)).
  induction pools as [|pool pools IH]; intros acc Hin; [by apply elem_of_nil in Hin|].
  apply elem_of_cons in Hin as [<-|Hin]; cbn [fold_left].
  - by rewrite extend_nil_r, fold_extend_nil.
  - by apply IH.
Qed.

Lemma extend_app acc1 acc2 pool :
  extend (acc1 ++ acc2) pool = extend acc1 pool ++ extend acc2 pool.
Proof. unfold extend. by rewrite bind_app. Qed.

Lemma fold_extend_app pools acc1 acc2 :
  fold_left extend pools (acc1 ++ acc2)
  = fold_left extend pools acc1 ++ fold_left extend pools acc2.
Proof.
  revert acc1 acc2. induction pools as [|pool pools IH]; intros; cbn [fold_left]; [done|].
  by rewrite extend_app, IH.
Qed.

Lemma fold_extend_cons pools x acc :
  fold_left extend pools (x :: acc)
  = fold_left extend pools [x] ++ fold_left extend pools acc.
Proof. apply (fold_extend_app pools [x] acc). Qed.

Lemma extend_one (x : list V) pool : extend [x] pool = (λ y, x ++ [y]) <$> pool.
Proof.
  unfold extend. rewrite bind_singleton.
  induction pool as [|y pool IH]; [done|]. rewrite bind_cons, fmap_cons. by f_equal.
Qed.

Lemma fold_extend_prefix pools (x : list V) :
  fold_left extend pools [x] = (x ++.) <$> fold_left extend pools [[]].
Proof.
  revert x. induction pools as [|pool pools IH]; intros x; cbn [fold_left].
  - simpl. by rewrite app_nil_r.
  - rewrite (extend_one x), (extend_one []).
    induction pool as [|y pool IHp].
    + by rewrite !fold_extend_nil.
    + rewrite !fmap_cons, !(fold_extend_cons _ _ (_ <$> pool)), fmap_app, <- IHp. f_equal.
      rewrite (IH (x ++ [y])), (IH ([] ++ [y])), <- list_fmap_compose.
      apply list_fmap_ext. intros _ t _. simpl. by rewrite <- app_assoc.
Qed.

(** The first pool varies slowest: the tuples that start with its first
    element come first, each followed by the product of the other pools
    in their order. *)
Lemma product_cons pool pools :
  product (pool :: pools) = y ← pool; (y ::.) <$> product pools.
Proof.
  rewrite !product_fold. cbn [fold_left]. rewrite extend_one.
  induction pool as [|y pool IH].
  - by rewrite fold_extend_nil.
  - rewrite fmap_cons, fold_extend_cons, bind_cons, IH. f_equal.
    by rewrite fold_extend_prefix.
Qed.

Lemma product_nil : product ([] : list (list V)) = [[]].
Proof. done. Qed.

(** Every tuple has one component per pool. *)
Lemma product_tuple_length pools t :
  t ∈ product pools → length t = length pools.
Proof.
  revert t. induction pools as [|pool pools IH]; intros t.
  - rewrite product_nil. by intros ->%list_elem_of_singleton.
  - rewrite product_cons. intros (y & Ht & _)%list_elem_of_bind.
    apply list_elem_of_fmap in Ht as (t' & -> & Ht'). simpl. f_equal. by apply IH.
Qed.

End product.

Section dict.
Context {V : Type}.
Implicit Types (d : pydict V) (k : pystr).

Lemma setitem_fresh d k v : k ∉ keys d → setitem d k v = d ++ [(k, v)].
Proof.
  unfold keys. induction d as [|[k' v'] d IH]; simpl; [done|].
  intros [Hne Hnin]%not_elem_of_cons.
  rewrite bool_decide_eq_false_2 by done. by rewrite IH.
Qed.

Lemma update_fresh d (pairs : list (pystr * V)) :
  NoDup (keys d ++ pairs.*1) → update d pairs = d ++ pairs.
Proof.
  unfold update, keys. revert d. induction pairs as [|[k v] pairs IH]; intros d Hnd; simpl.
  - by rewrite app_nil_r.
  - simpl in Hnd. rewrite setitem_fresh.
    + rewrite IH; [by rewrite <- app_assoc|].
      rewrite fmap_app. simpl. by rewrite <- app_assoc.
    + apply NoDup_app in Hnd as (_ & Hd & _). intros Hin. apply (Hd k Hin). left.
Qed.

(** [dict(pairs)] keeps the pairs as they are when no key repeats. *)
Lemma dict_NoDup (pairs : list (pystr * V)) :
  NoDup pairs.*1 → dict pairs = pairs.
Proof. intros Hnd. unfold dict. by rewrite update_fresh. Qed.

Lemma zip_keys (ks : list pystr) (t : list V) :
  length t = length ks → (zip ks t).*1 = ks.
Proof. intros Hlen. apply fst_zip. lia. Qed.

End dict.

End builtins_facts.

(** ** Facts about [BatchSender] *)

Module batchsend_facts.
Import builtins builtins_facts batchsend vocabulary.

Section facts.
Context {V J R : Type}.
Variable Job :
  pydict V → list pystr → list pystr → list pystr → R → result J.
Implicit Types (self : BatchSender V J R) (params : pydict (list V)).


Lemma jobs_loop_Return self ks tuples acc out :
  jobs_loop Job self ks tuples acc = Return out →
  ∃ js, out = acc ++ js
        ∧ Forall2 (λ i j, make Job self (dict (zip ks i)) = Return j) tuples js.
Proof.
  revert acc. induction tuples as [|i tuples IH]; intros acc; simpl.
  - intros [= <-]. exists []. by rewrite app_nil_r.
  - destruct (Job _ _ _ _ _) as [j|e] eqn:Hj; simpl; [|done].
    intros (js & -> & Hjs)%IH. exists (j :: js). split.
    + by rewrite <- app_assoc.
    + by constructor.
Qed.

Lemma jobs_loop_total self ks tuples acc :
  (∀ i, i ∈ tuples → ∃ j, make Job self (dict (zip ks i)) = Return j) →
  ∃ js, jobs_loop Job self ks tuples acc = Return (acc ++ js)
        ∧ Forall2 (λ i j, make Job self (dict (zip ks i)) = Return j) tuples js.
Proof.
  revert acc. induction tuples as [|i tuples IH]; intros acc Hok; simpl.
  - exists []. by rewrite app_nil_r.
  - destruct (Hok i) as [j Hj]; [left|]. unfold make in Hj. rewrite Hj. simpl.
    destruct (IH (acc ++ [j])) as (js & -> & Hjs).
    { intros i' Hi'. apply Hok. by right. }
    exists (j :: js). split; [by rewrite <- app_assoc|by constructor].
Qed.

(** The first tuple that [Job] rejects ends the loop. *)
Lemma jobs_loop_Raise self ks i tuples acc e :
  make Job self (dict (zip ks i)) = Raise e →
  jobs_loop Job self ks (i :: tuples) acc = Raise e.
Proof. unfold make. intros Hi. simpl. by rewrite Hi. Qed.

Lemma values_enumerate params :
  NoDup (keys params) → assignments params = enumerate params.
Proof.
  unfold assignments. induction params as [|[k vs] params IH]; intros Hnd.
  - done.
  - change (NoDup (k :: keys params)) in Hnd.
    apply NoDup_cons in Hnd as [Hk Hnd]. specialize (IH Hnd).
    change (values ((k, vs) :: params)) with (vs :: values params).
    change (keys ((k, vs) :: params)) with (k :: keys params).
    rewrite product_cons. cbn [enumerate]. rewrite <- IH. clear IH.
    induction vs as [|v vs IHv]; [done|].
    rewrite !bind_cons, fmap_app, IHv. f_equal.
    rewrite <- !list_fmap_compose. apply list_fmap_ext. intros n t Ht. simpl.
    apply list_elem_of_lookup_2, product_tuple_length in Ht.
    assert (Hlen : length t = length (keys params)).
    { rewrite Ht. unfold keys, values. by rewrite !length_fmap. }
    rewrite !dict_NoDup; [done| |].
    + by rewrite zip_keys.
    + change (NoDup (k :: (zip (keys params) t).*1)). rewrite zip_keys by done.
      by constructor.
Qed.

Lemma enumerate_length params : length (enumerate params) = value_count params.
Proof.
  induction params as [|[k vs] params IH]; [done|]. cbn [enumerate value_count foldr].
  fold (value_count params). rewrite <- IH. clear IH. cbn [snd].
  induction vs as [|v vs IHv]; [done|].
  rewrite bind_cons, length_app. rewrite IHv, length_fmap. simpl. lia.
Qed.

Lemma value_count_values params :
  foldr (λ pool n, length pool * n) 1 (values params) = value_count params.
Proof.
  induction params as [|[k vs] params IH]; [done|].
  change (values ((k, vs) :: params)) with (vs :: values params).
  cbn [foldr value_count]. by rewrite IH.
Qed.

Lemma assignments_length params : length (assignments params) = value_count params.
Proof.
  unfold assignments. by rewrite length_fmap, product_length, value_count_values.
Qed.

(** A seed key with exactly one value is no factor of the count. *)
Lemma value_count_nonseed params :
  (∀ k vs, (k, vs) ∈ params → k ∈ prepjob.seed_keys → length vs = 1) →
  value_count params = value_count (nonseed params).
Proof.
  unfold nonseed. induction params as [|[k vs] params IH]; intros Hseed; [done|].
  rewrite filter_cons. cbn [value_count foldr snd]. fold (value_count params).
  rewrite IH by (intros ???; apply Hseed; by right).
  case_decide as Hk; cbn [fst] in Hk.
  - done.
  - assert (Hin : k ∈ prepjob.seed_keys) by (by destruct (decide (k ∈ prepjob.seed_keys))).
    assert (Hone : length vs = 1) by (apply (Hseed k); [apply list_elem_of_here|done]).
    rewrite Hone. lia.
Qed.

Lemma prepare_jobs_spec self :
  prepare_jobs Job self
  = bind_result
      (jobs_loop Job self (keys (params self)) (product (values (params self))) [])
      (λ js, Return (set_jobs self js)).
Proof. done. Qed.

(** Enough for [prepare_jobs] to return: [Job] accepts every assignment. *)
Lemma prepare_jobs_total self :
  (∀ a, a ∈ assignments (params self) → ∃ j, make Job self a = Return j) →
  ∃ js, prepare_jobs Job self = Return (set_jobs self js)
        ∧ Forall2 (λ a j, make Job self a = Return j) (assignments (params self)) js.
Proof.
  intros Hok. rewrite prepare_jobs_spec.
  destruct (jobs_loop_total self (keys (params self))
              (product (values (params self))) []) as (js & -> & Hjs).
  { intros i Hi. apply Hok. unfold assignments. apply list_elem_of_fmap. eauto. }
  exists js. split; [done|]. unfold assignments. by apply Forall2_fmap_l.
Qed.

Lemma prepare_jobs_Return self self' :
  prepare_jobs Job self = Return self' →
  ∃ js, self' = set_jobs self js
        ∧ Forall2 (λ a j, make Job self a = Return j) (assignments (params self)) js.
Proof.
  rewrite prepare_jobs_spec.
  destruct (jobs_loop _ _ _ _ _) as [js|e] eqn:Hloop; simpl; [|done].
  intros [= <-]. apply jobs_loop_Return in Hloop as (js' & -> & Hjs).
  exists js'. split; [done|]. unfold assignments. by apply Forall2_fmap_l.
Qed.

(** Only the parameters, the role lists and the override table matter. *)
Lemma prepare_jobs_inputs self1 self2 :
  params self1 = params self2 →
  _syspar_keys self1 = _syspar_keys self2 →
  _modpar_keys self1 = _modpar_keys self2 →
  _auxpar_keys self1 = _auxpar_keys self2 →
  _redef self1 = _redef self2 →
  ∀ tuples acc,
    jobs_loop Job self1 (keys (params self1)) tuples acc
    = jobs_loop Job self2 (keys (params self2)) tuples acc.
Proof.
  intros Hp Hs Hm Ha Hr tuples. rewrite <- Hp.
  induction tuples as [|i tuples IH]; intros acc; simpl; [done|].
  rewrite <- Hs, <- Hm, <- Ha, <- Hr.
  destruct (Job _ _ _ _ _); simpl; [apply IH|done].
Qed.

End facts.

End batchsend_facts.

(** ** Facts about the file system *)

Module os_facts.
Import os.

Implicit Types (m : gmap location node) (w : world) (loc cur : location).

Lemma is_dir_at_mono m m' loc :
  m ⊆ m' → is_dir_at m loc = true → is_dir_at m' loc = true.
Proof.
  intros Hsub. destruct loc as [|name loc]; [done|]. simpl.
  intros Hd%bool_decide_eq_true. apply bool_decide_eq_true.
  by eapply lookup_weaken.
Qed.

Lemma is_dir_at_snoc m loc name :
  is_dir_at m (loc ++ [name]) = bool_decide (m !! (loc ++ [name]) = Some Dir).
Proof. by destruct loc. Qed.

Lemma check_dir_Return m loc :
  check_dir m loc = Return () ↔ is_dir_at m loc = true.
Proof.
  unfold check_dir. destruct (is_dir_at m loc); [done|].
  by destruct (m !! loc).
Qed.

Lemma walk_mono m m' cur names loc :
  m ⊆ m' → walk m cur names = Return loc → walk m' cur names = Return loc.
Proof.
  intros Hsub. revert cur. induction names as [|name names IH]; intros cur; [done|].
  cbn [walk]. destruct (check_dir m cur) as [[]|e] eqn:Hc; [|done].
  apply check_dir_Return, (is_dir_at_mono _ _ _ Hsub), check_dir_Return in Hc.
  rewrite Hc. simpl. apply IH.
Qed.

Lemma walk_app m cur names1 names2 :
  walk m cur (names1 ++ names2)
  = bind_result (walk m cur names1) (λ loc, walk m loc names2).
Proof.
  revert cur. induction names1 as [|name names1 IH]; intros cur; [done|].
  cbn [app walk]. destruct (check_dir m cur) as [[]|e]; [|done]. simpl. apply IH.
Qed.

Lemma path_isdir_mono w w' p :
  files w ⊆ files w' → cwd w' = cwd w →
  path_isdir w p = true → path_isdir w' p = true.
Proof.
  intros Hsub Hcwd. unfold path_isdir, start. destruct p as [|a p]; [done|].
  rewrite Hcwd. destruct (walk (files w) _ _) as [loc|e] eqn:Hw; [|done].
  rewrite (walk_mono _ _ _ _ _ Hsub Hw). by apply is_dir_at_mono.
Qed.

Lemma unsnoc_Some {A} (l : list A) init x :
  unsnoc l = Some (init, x) → l = init ++ [x].
Proof.
  unfold unsnoc. destruct (reverse l) as [|y rinit] eqn:Hr; [done|].
  intros [= <- <-]. rewrite <- (reverse_involutive l), Hr. by rewrite reverse_cons.
Qed.

(** A failed [mkdir] leaves the file system as it was. *)
Lemma mkdir_Raise w p e w' : mkdir w p = (Raise e, w') → w' = w.
Proof.
  unfold mkdir. destruct p as [|a p]; [by intros [= _ <-]|].
  destruct (unsnoc _) as [[parents name]|]; [|by intros [= _ <-]].
  destruct (bind_result _ _) as [par|e']; [|by intros [= _ <-]].
  case_bool_decide; [by intros [= _ <-]|].
  destruct (files w !! _); [by intros [= _ <-]|done].
Qed.

(** A successful [mkdir] adds one directory and nothing else. *)
Lemma mkdir_Return w p w' :
  mkdir w p = (Return (), w') →
  files w ⊆ files w' ∧ cwd w' = cwd w ∧ path_isdir w' p = true
  ∧ path_isdir w p = false.
Proof.
  unfold mkdir, path_isdir. destruct p as [|a p]; [done|].
  set (q := a :: p). destruct (unsnoc _) as [[parents name]|] eqn:Hu; [|done].
  apply unsnoc_Some in Hu.
  destruct (walk (files w) (start w q) parents) as [par|e] eqn:Hw; [|done]. simpl.
  destruct (check_dir (files w) par) as [[]|e] eqn:Hc; [|done]. simpl.
  case_bool_decide as Hname; [done|].
  destruct (files w !! (par ++ [name])) eqn:Hl; [done|].
  intros [= <-]. simpl.
  assert (Hsub : files w ⊆ <[par ++ [name] := Dir]> (files w))
    by by apply insert_subseteq.
  assert (Hstep : step par name = par ++ [name]).
  { unfold step. rewrite !bool_decide_eq_false_2; [done|tauto..]. }
  split_and!; [done|done| |].
  - change (start _ q) with (start w q). cbn [files]. rewrite Hu, walk_app.
    rewrite (walk_mono _ _ _ _ _ Hsub Hw). cbn [bind_result walk].
    apply check_dir_Return, (is_dir_at_mono _ _ _ Hsub), check_dir_Return in Hc.
    rewrite Hc. cbn [bind_result]. rewrite Hstep, is_dir_at_snoc.
    apply bool_decide_eq_true, lookup_insert_eq.
  - rewrite Hu, walk_app, Hw. cbn [bind_result walk]. rewrite Hc. cbn [bind_result].
    rewrite Hstep, is_dir_at_snoc. apply bool_decide_eq_false. by rewrite Hl.
Qed.

End os_facts.

(** ** Facts about [prepare_folders] *)

Module folders_facts.
Import builtins builtins_facts batchsend os_facts vocabulary.

Section dict_update.
Context {V : Type}.
Implicit Types (d : pydict V) (k : pystr).

Lemma setitem_same d k v : get d k = Some v → setitem d k v = d.
Proof.
  induction d as [|[k' v'] d IH]; simpl; [done|].
  case_bool_decide as Hk; [by intros [= ->]; subst|]. intros Hg. by rewrite IH.
Qed.

Lemma get_setitem d k v k' :
  get (setitem d k v) k' = if bool_decide (k = k') then Some v else get d k'.
Proof.
  induction d as [|[k0 v0] d IH]; simpl.
  - done.
  - destruct (bool_decide (k0 = k)) eqn:H0; simpl.
    + apply bool_decide_eq_true in H0 as ->. by case_bool_decide.
    + rewrite IH. apply bool_decide_eq_false in H0.
      repeat case_bool_decide; congruence.
Qed.

(** Assigning the pairs a dict already holds changes nothing. *)
Lemma update_same d (pairs : list (pystr * V)) :
  Forall (λ kv, get d kv.1 = Some kv.2) pairs → update d pairs = d.
Proof.
  unfold update. induction 1 as [|[k v] pairs Hkv _ IH]; simpl; [done|].
  by rewrite setitem_same.
Qed.

Lemma get_update_other d (pairs : list (pystr * V)) k :
  k ∉ pairs.*1 → get (update d pairs) k = get d k.
Proof.
  unfold update. revert d. induction pairs as [|[k' v'] pairs IH]; intros d; simpl; [done|].
  intros [Hne Hnin]%not_elem_of_cons. rewrite IH by done.
  rewrite get_setitem. by rewrite bool_decide_eq_false_2.
Qed.

Lemma get_update d (pairs : list (pystr * V)) :
  NoDup pairs.*1 →
  Forall (λ kv, get (update d pairs) kv.1 = Some kv.2) pairs.
Proof.
  revert d. induction pairs as [|[k v] pairs IH]; intros d Hnd; [done|].
  change (NoDup (k :: pairs.*1)) in Hnd. apply NoDup_cons in Hnd as [Hk Hnd].
  constructor.
  - change (update d ((k, v) :: pairs)) with (update (setitem d k v) pairs).
    cbn [fst snd]. rewrite get_update_other by done.
    rewrite get_setitem. by rewrite bool_decide_eq_true_2.
  - apply (IH (setitem d k v) Hnd).
Qed.

Lemma update_update d (pairs : list (pystr * V)) :
  NoDup pairs.*1 → update (update d pairs) pairs = update d pairs.
Proof. intros Hnd. by apply update_same, get_update. Qed.

End dict_update.

Section facts.
Context {V J R : Type}.
Implicit Types (self : BatchSender V J R) (w : world).

Lemma ensure_dir_Return p w w' :
  ensure_dir p w = (Return (), w') →
  files w ⊆ files w' ∧ cwd w' = cwd w ∧ os.path_isdir w' p = true.
Proof.
  unfold ensure_dir. destruct (os.path_isdir w p) eqn:Hd.
  - by intros [= <-].
  - intros (? & ? & ? & _)%mkdir_Return. done.
Qed.

Lemma ensure_dir_Raise p w e w' : ensure_dir p w = (Raise e, w') → w' = w.
Proof.
  unfold ensure_dir. destruct (os.path_isdir w p); [done|]. apply mkdir_Raise.
Qed.

Lemma ensure_dir_isdir p w :
  os.path_isdir w p = true → ensure_dir p w = (Return (), w).
Proof. unfold ensure_dir. by intros ->. Qed.

Lemma subdirs_loop_Return storage subdirs d w d' w' :
  subdirs_loop storage subdirs d w = (Return d', w') →
  files w ⊆ files w' ∧ cwd w' = cwd w
  ∧ Forall (λ subdir, os.path_isdir w' (sub_path storage subdir) = true) subdirs
  ∧ d' = subdirs_of storage subdirs d.
Proof.
  revert d w. induction subdirs as [|subdir subdirs IH]; intros d w; cbn [subdirs_loop].
  - by intros [= <- <-].
  - fold (sub_path storage subdir).
    destruct (ensure_dir _ w) as [[[]|e] w1] eqn:He; [|done].
    apply ensure_dir_Return in He as (Hsub1 & Hcwd1 & Hd1).
    intros (Hsub & Hcwd & Hall & ->)%IH. split_and!.
    + by etrans.
    + congruence.
    + constructor; [|done]. by eapply path_isdir_mono.
    + done.
Qed.

Lemma subdirs_loop_isdir storage subdirs d w :
  Forall (λ subdir, os.path_isdir w (sub_path storage subdir) = true) subdirs →
  subdirs_loop storage subdirs d w = (Return (subdirs_of storage subdirs d), w).
Proof.
  intros Hall. revert d. induction Hall as [|subdir subdirs Hd _ IH]; intros d; [done|].
  cbn [subdirs_loop]. fold (sub_path storage subdir).
  rewrite ensure_dir_isdir by done. apply IH.
Qed.

Lemma subdirs_of_keys storage :
  NoDup (subdirs_of storage subdirs_list []).*1.
Proof.
  change ((subdirs_of storage subdirs_list []).*1) with subdirs_list.
  by apply (bool_decide_unpack _).
Qed.

Lemma update_dict_update self d :
  NoDup d.*1 → update_dict (update_dict self d) d = update_dict self d.
Proof.
  intros Hnd. unfold update_dict. simpl. by rewrite update_update.
Qed.

(** What a completed [prepare_folders] leaves. *)
Lemma prepare_folders_Return self storage w self' w' :
  prepare_folders self storage w = (Return self', w') →
  files w ⊆ files w' ∧ cwd w' = cwd w
  ∧ os.path_isdir w' storage = true
  ∧ Forall (λ subdir, os.path_isdir w' (sub_path storage subdir) = true)
           subdirs_list
  ∧ self' = update_dict (set_storage self storage)
              (subdirs_of storage subdirs_list []).
Proof.
  unfold prepare_folders.
  destruct (ensure_dir storage w) as [[[]|e] w1] eqn:He; [|done].
  apply ensure_dir_Return in He as (Hsub1 & Hcwd1 & Hd1).
  destruct (subdirs_loop _ _ _ w1) as [[d|e] w2] eqn:Hl; [|done].
  apply subdirs_loop_Return in Hl as (Hsub2 & Hcwd2 & Hall & ->).
  intros [= <- <-]. split_and!; [by etrans|congruence| |done|done].
  by eapply path_isdir_mono.
Qed.

(** Where the directories all exist, [prepare_folders] creates nothing. *)
Lemma prepare_folders_isdir self storage w :
  os.path_isdir w storage = true →
  Forall (λ subdir, os.path_isdir w (sub_path storage subdir) = true)
         subdirs_list →
  prepare_folders self storage w
  = (Return (update_dict (set_storage self storage)
               (subdirs_of storage subdirs_list [])), w).
Proof.
  intros Hd Hall. unfold prepare_folders.
  rewrite ensure_dir_isdir by done. by rewrite subdirs_loop_isdir.
Qed.

(** A failed [prepare_folders] has created the directories before the
    failing one and changed nothing else. *)
Lemma prepare_folders_subseteq self storage w r w' :
  prepare_folders self storage w = (r, w') → files w ⊆ files w'.
Proof.
  unfold prepare_folders.
  destruct (ensure_dir storage w) as [[[]|e] w1] eqn:He.
  - apply ensure_dir_Return in He as (Hsub1 & _ & _).
    assert (Hloop : ∀ subdirs d w1 r1 w2,
      subdirs_loop storage subdirs d w1 = (r1, w2) → files w1 ⊆ files w2).
    { clear. induction subdirs as [|subdir subdirs IH]; intros d w1 r1 w2; cbn [subdirs_loop].
      - by intros [= _ <-].
      - destruct (ensure_dir _ w1) as [[[]|e] w3] eqn:He.
        + apply ensure_dir_Return in He as (Hsub & _ & _).
          intros Hrest%IH. by etrans.
        + apply ensure_dir_Raise in He as ->. by intros [= _ <-]. }
    destruct (subdirs_loop _ _ _ w1) as [[d|e] w2] eqn:Hl;
      apply Hloop in Hl; intros [= _ <-]; by etrans.
  - apply ensure_dir_Raise in He as ->. by intros [= _ <-].
Qed.

End facts.

End folders_facts.

(** ** When [prepare_folders] completes *)

Module completion.
Import builtins batchsend vocabulary os PyFacts os_facts folders_facts.

Lemma split_sep_nonempty a : split_sep a ≠ [].
Proof.
  destruct a as [|c a]; [done|]. cbn [split_sep].
  case_bool_decide; [done|]. by destruct (split_sep a).
Qed.

Lemma split_sep_app a b :
  split_sep (a ++ sep :: b) = split_sep a ++ split_sep b.
Proof.
  induction a as [|c a IH]; cbn [app].
  - cbn [split_sep]. by rewrite bool_decide_eq_true_2.
  - cbn [split_sep]. case_bool_decide; [by rewrite IH|].
    rewrite IH. pose proof (split_sep_nonempty a).
    by destruct (split_sep a) as [|name names].
Qed.

Lemma components_app a b :
  components (a ++ sep :: b) = components a ++ components b.
Proof. unfold components. by rewrite split_sep_app, filter_app. Qed.

Lemma components_sub_path storage subdir :
  subdir ∈ subdirs_list →
  components (sub_path storage subdir) = components storage ++ [subdir].
Proof.
  intros Hin. unfold sub_path.
  change ("/" ++ subdir ++ "/") with (sep :: (subdir ++ "/")).
  rewrite components_app. f_equal.
  unfold subdirs_list in Hin.
  repeat (apply elem_of_cons in Hin as [->|Hin]; [reflexivity|]).
  by apply elem_of_nil in Hin.
Qed.

Lemma start_sub_path w storage subdir :
  storage ≠ [] → start w (sub_path storage subdir) = start w storage.
Proof.
  unfold start, sub_path. destruct storage as [|a q]; [done|]. intros _.
  cbn [app]. by rewrite !startswith_cons, !startswith_nil.
Qed.

Lemma step_subdir loc subdir :
  subdir ∈ subdirs_list → step loc subdir = loc ++ [subdir].
Proof.
  intros Hin. unfold step, subdirs_list in *.
  repeat (apply elem_of_cons in Hin as [->|Hin]; [done|]).
  by apply elem_of_nil in Hin.
Qed.

(** A successful [mkdir] adds no regular file. *)
Lemma mkdir_no_file w p w' loc :
  mkdir w p = (Return (), w') →
  files w' !! loc = Some File → files w !! loc = Some File.
Proof.
  unfold mkdir. destruct p as [|a p]; [done|].
  destruct (unsnoc _) as [[parents name]|]; [|done].
  destruct (bind_result _ _) as [par|e]; [|done].
  case_bool_decide; [done|]. destruct (files w !! (par ++ [name])) eqn:Hl; [done|].
  intros [= <-]. cbn [files].
  destruct (decide (par ++ [name] = loc)) as [<-|Hne].
  - by rewrite lookup_insert_eq.
  - by rewrite lookup_insert_ne.
Qed.

Lemma ensure_dir_no_file p w w' loc :
  ensure_dir p w = (Return (), w') →
  files w' !! loc = Some File → files w !! loc = Some File.
Proof.
  unfold ensure_dir. destruct (path_isdir w p); [by intros [= <-]|].
  apply mkdir_no_file.
Qed.

(** Below a directory, a name that is free or a directory can be
    ensured. *)
Lemma ensure_dir_subdir storage subdir w loc :
  storage ≠ [] → subdir ∈ subdirs_list →
  locate w storage = Return loc → is_dir_at (files w) loc = true →
  files w !! (loc ++ [subdir]) ≠ Some File →
  ∃ w', ensure_dir (sub_path storage subdir) w = (Return (), w').
Proof.
  intros Hne Hin Hloc Hdir Hfile. unfold ensure_dir.
  destruct (path_isdir w _) eqn:Hisdir; [by eexists|].
  unfold locate in Hloc. unfold path_isdir in Hisdir. unfold mkdir.
  destruct (sub_path storage subdir) as [|a q] eqn:Hq; [by destruct storage|].
  rewrite <- Hq in *. rewrite components_sub_path, start_sub_path in * by done.
  rewrite walk_app, Hloc in Hisdir. cbn [bind_result walk] in Hisdir.
  apply check_dir_Return in Hdir. rewrite Hdir in Hisdir. cbn [bind_result] in Hisdir.
  rewrite step_subdir, is_dir_at_snoc in Hisdir by done.
  apply bool_decide_eq_false in Hisdir.
  unfold unsnoc. rewrite reverse_app, reverse_singleton. cbn [app].
  rewrite reverse_involutive, Hloc. cbn [bind_result]. rewrite Hdir. cbn [bind_result].
  rewrite bool_decide_eq_false_2.
  - destruct (files w !! (loc ++ [subdir])) as [[]|] eqn:Hl; [done|done|by eexists].
  - unfold subdirs_list in Hin.
    repeat (apply elem_of_cons in Hin as [->|Hin]; [by intros [|]|]).
    by apply elem_of_nil in Hin.
Qed.

Lemma subdirs_loop_completes storage subdirs d w loc :
  storage ≠ [] → subdirs ⊆ subdirs_list →
  locate w storage = Return loc → is_dir_at (files w) loc = true →
  (∀ subdir, subdir ∈ subdirs → files w !! (loc ++ [subdir]) ≠ Some File) →
  ∃ d' w', subdirs_loop storage subdirs d w = (Return d', w').
Proof.
  intros Hne. revert d w.
  induction subdirs as [|subdir subdirs IH]; intros d w Hsub Hloc Hdir Hfile.
  - by eexists _, _.
  - cbn [subdirs_loop]. fold (sub_path storage subdir).
    destruct (ensure_dir_subdir storage subdir w loc) as [w1 He]; try done.
    { apply Hsub. left. }
    { apply Hfile. left. }
    rewrite He. pose proof He as (Hs1 & Hc1 & _)%ensure_dir_Return.
    apply IH.
    + intros x Hx. apply Hsub. by right.
    + unfold locate in *. unfold start in *. rewrite Hc1.
      by apply (walk_mono _ _ _ _ _ Hs1).
    + by apply (is_dir_at_mono _ _ _ Hs1).
    + intros x Hx Hf. apply (Hfile x); [by right|].
      by apply (ensure_dir_no_file _ _ _ _ He).
Qed.

(** When the first run of [prepare_folders] completes: the storage root
    is a directory or [os.mkdir] can make it one, and under none of the
    four names lies a regular file. *)
Lemma prepare_folders_completes {V J R} (self : BatchSender V J R)
    storage w w1 loc :
  ensure_dir storage w = (Return (), w1) →
  locate w1 storage = Return loc →
  (∀ subdir, subdir ∈ subdirs_list →
             files w1 !! (loc ++ [subdir]) ≠ Some File) →
  ∃ self' w', prepare_folders self storage w = (Return self', w').
Proof.
  intros He Hloc Hfile. unfold prepare_folders. rewrite He.
  pose proof He as (_ & _ & Hdir)%ensure_dir_Return.
  assert (Hne : storage ≠ []) by (by intros ->).
  destruct (subdirs_loop_completes storage subdirs_list [] w1 loc)
    as (d' & w' & ->); try done.
  - unfold path_isdir in Hdir. destruct storage as [|a q] eqn:Hq; [done|].
    rewrite <- Hq in *. unfold locate in Hloc. by rewrite Hloc in Hdir.
  - by eexists _, _.
Qed.

End completion.

(** ** Facts about [run_jobs] *)

Module runner_facts.
Import builtins batchsend.

Section any_script.
Context {V J R M Script W : Type}.
Variable SubmittedScript :
  J → BatchSender V J R → M → run_opts → W → result Script * W.
Implicit Types (self : BatchSender V J R) (js : list J) (w : W).

Lemma run_loop_app self mode opts js1 js2 w :
  run_loop SubmittedScript self mode opts (js1 ++ js2) w
  = match run_loop SubmittedScript self mode opts js1 w with
    | (Return _, w') => run_loop SubmittedScript self mode opts js2 w'
    | (Raise e, w') => (Raise e, w')
    end.
Proof.
  revert w. induction js1 as [|job js1 IH]; intros w; [done|].
  cbn [app run_loop]. by destruct (SubmittedScript _ _ _ _ _) as [[s|e] w'].
Qed.

(** [run_jobs] has no handler: an exception of [SubmittedScript] ends
    the loop, and the jobs behind the failing one are not reached. *)
Lemma run_loop_Raise self mode opts job rest w e w' :
  SubmittedScript job self mode opts w = (Raise e, w') →
  run_loop SubmittedScript self mode opts (job :: rest) w = (Raise e, w').
Proof. intros H. cbn [run_loop]. by rewrite H. Qed.

End any_script.

Section spec_script.
Context {V J R Text O : Type}.
Variable descriptor : J → pystr.
Variable render : J → scriptsub.run_mode → run_opts → Text.
Variable dispatch : Text → scriptsub.run_mode → O → scriptsub.outcome * O.

Local Abbreviation Submit :=
  (scriptsub.SubmittedScript (B := BatchSender V J R) descriptor render dispatch).
Local Abbreviation outcomes := (scriptsub.outcomes render dispatch).

Lemma run_loop_ledger (self : BatchSender V J R) mode opts js w :
  run_loop Submit self mode opts js w
  = (Return (),
     {| scriptsub.outside := (outcomes mode opts js (scriptsub.outside w)).2;
        scriptsub.ledger :=
          scriptsub.ledger w
          ++ zip (descriptor <$> js)
                 (outcomes mode opts js (scriptsub.outside w)).1 |}).
Proof.
  revert w. induction js as [|job js IH]; intros [o l]; cbn [run_loop].
  - simpl. by rewrite app_nil_r.
  - unfold scriptsub.SubmittedScript at 1. cbn [scriptsub.outside scriptsub.ledger].
    cbn [scriptsub.outcomes].
    destruct (dispatch _ mode o) as [r o'] eqn:Hd.
    rewrite IH. cbn [scriptsub.outside scriptsub.ledger].
    destruct (scriptsub.outcomes render dispatch mode opts js o') as [rs o''].
    simpl. by rewrite <- app_assoc.
Qed.

Lemma outcomes_length mode opts js o :
  length (outcomes mode opts js o).1 = length js.
Proof.
  revert o. induction js as [|job js IH]; intros o; [done|].
  cbn [scriptsub.outcomes]. destruct (dispatch _ _ _) as [r o'].
  specialize (IH o'). destruct (scriptsub.outcomes _ _ _ _ _ _) as [rs o''].
  simpl in *. by rewrite IH.
Qed.

End spec_script.

End runner_facts.

(** ** Facts about descriptors as strings *)

Module strings_facts.
Import Py PyFacts vocabulary.

Implicit Types (s t k x y : pystr) (toks : list pystr).

Lemma underscored_cons t toks :
  underscored (t :: toks) = "_" ++ t ++ underscored toks.
Proof. unfold underscored. rewrite fmap_cons. simpl. done. Qed.

Lemma underscored_app toks1 toks2 :
  underscored (toks1 ++ toks2) = underscored toks1 ++ underscored toks2.
Proof. unfold underscored. by rewrite fmap_app, concat_app. Qed.

Lemma underscored_boundary toks : at_boundary (underscored toks).
Proof.
  destruct toks as [|t toks]; [by left|]. right. rewrite underscored_cons.
  by eexists.
Qed.

Lemma join_underscored t toks :
  join "_" (t :: toks) = t ++ underscored toks.
Proof.
  revert t. induction toks as [|t' toks IH]; intros t.
  - simpl. by rewrite app_nil_r.
  - change (join "_" (t :: t' :: toks)) with (t ++ "_" ++ join "_" (t' :: toks)).
    by rewrite IH, underscored_cons.
Qed.

Lemma join_app_underscored toks1 toks2 :
  toks1 ≠ [] → join "_" (toks1 ++ toks2) = join "_" toks1 ++ underscored toks2.
Proof.
  destruct toks1 as [|t toks1]; [done|]. intros _.
  change ((t :: toks1) ++ toks2) with (t :: (toks1 ++ toks2)).
  by rewrite !join_underscored, underscored_app, app_assoc.
Qed.

(** Two tokens that end at a boundary and agree up to it are equal. *)
Lemma startswith_token t k x :
  plain t → plain k → at_boundary x →
  startswith (t ++ x) (k ++ "_") = true → t = k.
Proof.
  unfold plain. revert t. induction k as [|a k IH]; intros t Ht Hk Hx.
  - destruct t as [|b t]; [done|]. simpl. intros [Hb _]%andb_prop.
    apply bool_decide_eq_true in Hb as <-. exfalso. apply Ht. left.
  - apply not_elem_of_cons in Hk as [Ha Hk]. destruct t as [|b t].
    + destruct Hx as [->|[x' ->]]; simpl; [done|].
      intros [Hb _]%andb_prop. by apply bool_decide_eq_true in Hb.
    + apply not_elem_of_cons in Ht as [Hb Ht]. simpl.
      intros [Hab Hrest]%andb_prop. apply bool_decide_eq_true in Hab as ->.
      f_equal. by apply IH.
Qed.

(** An occurrence of a delimited key cannot start inside a token. *)
Lemma find_skip_token t x y :
  plain t →
  find (t ++ x) ("_"%char :: y) = (λ n, length t + n) <$> find x ("_"%char :: y).
Proof.
  unfold plain. induction t as [|a t IH]; intros Ht.
  - simpl. by destruct (find x _).
  - apply not_elem_of_cons in Ht as [Ha Ht].
    change ((a :: t) ++ x) with (a :: (t ++ x)). rewrite find_cons, startswith_cons.
    rewrite bool_decide_eq_false_2 by done. simpl. rewrite IH by done.
    by destruct (find x _).
Qed.

(** The key between underscores: ['_{}_'.format(k)]. *)
Local Abbreviation delimit k := ("_"%char :: k ++ "_").

Lemma underscored_cons' t toks x :
  underscored (t :: toks) ++ x = "_"%char :: t ++ underscored toks ++ x.
Proof. rewrite underscored_cons. by rewrite <- !app_assoc. Qed.

Lemma find_underscored_None toks k :
  Forall plain toks → plain k → k ∉ toks →
  find (underscored toks) (delimit k) = None.
Proof.
  intros Hall Hk. induction Hall as [|t toks Ht _ IH]; intros Hnin; [done|].
  apply not_elem_of_cons in Hnin as [Hne Hnin].
  rewrite <- (app_nil_r (underscored (t :: toks))), underscored_cons', app_nil_r.
  rewrite find_cons, startswith_cons, bool_decide_eq_true_2 by done.
  destruct (startswith _ _) eqn:Hs.
  - apply startswith_token in Hs; [by subst|done..|apply underscored_boundary].
  - cbn [andb]. rewrite find_skip_token by done. by rewrite IH.
Qed.

Lemma find_underscored toks k x :
  Forall plain toks → plain k → k ∉ toks →
  find (underscored toks ++ delimit k ++ x) (delimit k)
  = Some (length (underscored toks)).
Proof.
  intros Hall Hk. induction Hall as [|t toks Ht _ IH]; intros Hnin.
  - change (underscored []) with (@nil ascii). rewrite app_nil_l.
    apply find_startswith, startswith_app.
  - apply not_elem_of_cons in Hnin as [Hne Hnin].
    rewrite underscored_cons'.
    rewrite find_cons, startswith_cons, bool_decide_eq_true_2 by done.
    destruct (startswith _ _) eqn:Hs.
    + apply startswith_token in Hs; [by subst|done..|].
      destruct toks; [right; by eexists|]. right. rewrite underscored_cons'. by eexists.
    + cbn [andb]. rewrite find_skip_token by done. rewrite IH by done.
      rewrite underscored_cons. simpl. by rewrite !length_app.
Qed.

(** Cutting at the first underscore. *)
Lemma token_app t x : plain t → at_boundary x → token (t ++ x) = t.
Proof.
  unfold plain. induction t as [|a t IH]; intros Ht Hx.
  - by destruct Hx as [->|[x' ->]].
  - apply not_elem_of_cons in Ht as [Ha Ht]. simpl.
    rewrite bool_decide_eq_false_2 by done. by rewrite IH.
Qed.

Lemma find_underscore s :
  find s "_" = if bool_decide (token s = s) then None else Some (length (token s)).
Proof.
  induction s as [|a s IH]; [done|]. rewrite find_cons, startswith_cons.
  cbn [token]. destruct (bool_decide_reflect (a = "_"%char)) as [->|Hne].
  - rewrite bool_decide_eq_true_2, startswith_nil by done.
    by rewrite bool_decide_eq_false_2.
  - rewrite (bool_decide_eq_false_2 ("_"%char = a)) by done. cbn [andb]. rewrite IH.
    destruct (bool_decide_reflect (token s = s)) as [Heq|Hneq].
    + by rewrite bool_decide_eq_true_2 by congruence.
    + by rewrite bool_decide_eq_false_2 by congruence.
Qed.

(** The cut that [_extract_disorder] makes at [splitter]. *)
Lemma cut_at_splitter s :
  (if (find_Z s "_" <? 0)%Z then (s, [])
   else (take (Z.to_nat (find_Z s "_")) s, drop (Z.to_nat (find_Z s "_")) s))
  = (token s, drop (length (token s)) s).
Proof.
  unfold find_Z. rewrite find_underscore.
  destruct (bool_decide_reflect (token s = s)) as [Heq|Hneq].
  - simpl. rewrite Heq. by rewrite drop_all.
  - destruct (Z.ltb_spec (Z.of_nat (length (token s))) 0) as [?|_]; [lia|].
    rewrite Nat2Z.id. f_equal.
    clear. induction s as [|a s IH]; [done|]. simpl.
    case_bool_decide; [done|]. simpl. by rewrite IH.
Qed.

Lemma lstrip_plain t x : t ≠ [] → plain t → lstrip (t ++ x) "_" = t ++ x.
Proof.
  unfold plain. destruct t as [|a t]; [done|]. intros _ [Ha _]%not_elem_of_cons.
  simpl. rewrite bool_decide_eq_false_2; [done|]. by intros ->%list_elem_of_singleton.
Qed.

Lemma rstrip_plain t : plain t → rstrip t "_" = t.
Proof.
  unfold plain, rstrip. intros Ht. destruct (reverse t) as [|a r] eqn:Hr.
  - apply (f_equal reverse) in Hr. rewrite reverse_involutive in Hr. by subst.
  - simpl. rewrite bool_decide_eq_false_2.
    + by rewrite <- Hr, reverse_involutive.
    + intros ->%list_elem_of_singleton. apply Ht.
      rewrite <- (reverse_involutive t), Hr. apply elem_of_reverse. left.
Qed.

Lemma lstrip_underscored t toks :
  t ≠ [] → plain t → lstrip (underscored (t :: toks)) "_" = join "_" (t :: toks).
Proof.
  intros Hne Ht. rewrite underscored_cons, join_underscored. simpl.
  by rewrite lstrip_plain.
Qed.

End strings_facts.

(** ** Facts about [_extract_disorder] *)

Module utils_facts.
Import Py PyFacts strings_facts utils vocabulary.

Section extract_disorder.
Context {F : Type}.
Variable np_float : pystr → option F.
Implicit Types (s t k x y : pystr) (toks : list pystr).

Lemma extract_disorder_split s k :
  _extract_disorder np_float s k
  = match split_loop "_" (rstrip (lstrip k "_") "_" ++ "_") ("_" ++ s) with
    | [rest1; dis_string] => finish np_float rest1 dis_string
    | _ => Raise ValueError
    end.
Proof.
  unfold _extract_disorder, finish. cbn [split app bind_result].
  destruct (split_loop _ _ _) as [|rest1 [|dis_string [|? ?]]]; try done.
  by rewrite cut_at_splitter.
Qed.

Lemma split_loop_once c sep' s i :
  count_loop c sep' s = 1 → find s (c :: sep') = Some i →
  split_loop c sep' s = [take i s; drop (i + length (c :: sep')) s].
Proof.
  intros Hc Hf. rewrite split_loop_unfold, Hf. f_equal.
  rewrite count_loop_unfold, Hf in Hc. injection Hc as Hc.
  rewrite count_loop_unfold in Hc. rewrite split_loop_unfold.
  by destruct (find (drop _ s) _).
Qed.

Lemma count_loop_once c sep' s :
  count_loop c sep' s = 1 → ∃ i, find s (c :: sep') = Some i.
Proof.
  rewrite count_loop_unfold. destruct (find s _) as [i|]; [eauto|done].
Qed.

Lemma split_loop_two c sep' s rest1 dis_string :
  split_loop c sep' s = [rest1; dis_string] → count_loop c sep' s = 1.
Proof.
  intros Hs. pose proof (split_loop_length c sep' s) as Hl.
  rewrite Hs in Hl. simpl in Hl. lia.
Qed.

Lemma extract_disorder_not_once s k :
  count ("_" ++ s) (delimited k) ≠ 1 →
  _extract_disorder np_float s k = Raise ValueError.
Proof.
  intros Hc. rewrite extract_disorder_split.
  destruct (split_loop _ _ _) as [|rest1 [|dis_string [|? ?]]] eqn:Hs; try done.
  by apply split_loop_two in Hs.
Qed.

Lemma extract_disorder_once s k i :
  count ("_" ++ s) (delimited k) = 1 →
  find ("_" ++ s) (delimited k) = Some i →
  _extract_disorder np_float s k = finish np_float (take i ("_" ++ s)) (behind s k i).
Proof.
  intros Hc Hf. rewrite extract_disorder_split.
  by rewrite (split_loop_once _ _ _ i Hc Hf).
Qed.

Lemma lstrip_plain_self k : plain k → lstrip k "_" = k.
Proof.
  unfold plain. destruct k as [|a k]; [done|]. intros [Ha _]%not_elem_of_cons.
  simpl. rewrite bool_decide_eq_false_2; [done|]. by intros ->%list_elem_of_singleton.
Qed.

Lemma delimited_plain k : plain k → delimited k = "_"%char :: k ++ "_".
Proof. intros Hk. unfold delimited. by rewrite lstrip_plain_self, rstrip_plain. Qed.

(** The descriptor as a sequence of tokens, cut at a key that occurs
    once among them. *)
Lemma extract_disorder_tokens tb k sv ta f :
  Forall plain tb → plain k → plain sv → Forall plain ta →
  k ∉ tb → k ∉ ta → np_float sv = Some f →
  _extract_disorder np_float (join "_" (tb ++ k :: sv :: ta)) k
  = Return (lstrip (underscored tb) "_" ++ underscored ta, f).
Proof.
  intros Htb Hk Hsv Hta Hnb Hna Hf.
  assert (Hs : "_" ++ join "_" (tb ++ k :: sv :: ta)
               = underscored tb ++ ("_"%char :: k ++ "_") ++ sv ++ underscored ta).
  { destruct (tb ++ k :: sv :: ta) as [|t toks] eqn:E; [by destruct tb|].
    rewrite join_underscored, <- (underscored_cons t toks), <- E.
    rewrite underscored_app, !underscored_cons. simpl. by rewrite <- !app_assoc. }
  assert (Hfind : find ("_" ++ join "_" (tb ++ k :: sv :: ta)) (delimited k)
                  = Some (length (underscored tb))).
  { rewrite Hs, delimited_plain by done. by apply find_underscored. }
  assert (Hbehind : behind (join "_" (tb ++ k :: sv :: ta)) k (length (underscored tb))
                    = sv ++ underscored ta).
  { unfold behind. rewrite Hs, delimited_plain by done.
    rewrite <- drop_drop, drop_app_length, drop_app_length. done. }
  assert (Hrest : find (sv ++ underscored ta) (delimited k) = None).
  { rewrite delimited_plain, find_skip_token by done.
    by rewrite find_underscored_None. }
  rewrite (extract_disorder_once _ _ (length (underscored tb))); [|
    | done].
  - rewrite Hbehind. unfold finish.
    rewrite token_app by (done || apply underscored_boundary).
    rewrite Hf, drop_app_length. by rewrite Hs, take_app_length.
  - unfold count, delimited. cbn [app]. rewrite count_loop_unfold.
    change (find _ ("_"%char :: ?z)) with
      (find ("_" ++ join "_" (tb ++ k :: sv :: ta)) (delimited k)).
    rewrite Hfind.
    change (drop _ _) with
      (behind (join "_" (tb ++ k :: sv :: ta)) k (length (underscored tb))).
    rewrite Hbehind, count_loop_unfold.
    change (find _ ("_"%char :: ?z)) with
      (find (sv ++ underscored ta) (delimited k)).
    by rewrite Hrest.
Qed.

End extract_disorder.

End utils_facts.

(** * The specification, claim by claim *)

Import builtins batchsend vocabulary.

Import batchsend_facts builtins_facts.

(** ** C1: the number of jobs *)

(** C1, as the code has it: whenever [Job] accepts the assignments,
    [prepare_jobs] stores as many jobs as the product of the lengths of
    all value lists, those of the seed keys included; that is the product
    over the other keys when every seed key present has one value. *)
Theorem prepare_jobs_count {V J R}
    (Job : pydict V → list pystr → list pystr → list pystr → R → result J)
    (self : BatchSender V J R) :
  (∀ a, a ∈ assignments (params self) → ∃ j, make Job self a = Return j) →
  ∃ js, prepare_jobs Job self = Return (set_jobs self js)
        ∧ length js = value_count (params self)
        ∧ ((∀ k vs, (k, vs) ∈ params self → k ∈ prepjob.seed_keys →
                    length vs = 1) →
           length js = value_count (nonseed (params self))).
Proof.
  intros Hok. destruct (prepare_jobs_total Job self Hok) as (js & Hjs & Hall).
  exists js. apply Forall2_length in Hall. rewrite assignments_length in Hall.
  split_and!; [done|done|]. intros Hseed. by rewrite <- value_count_nonseed.
Qed.

Lemma prepare_jobs_count_seed_range :
  ∃ js, prepare_jobs examples.keep_items
          (examples.sender examples.params_seed_range ["L"] [] [] ())
        = Return (set_jobs
                    (examples.sender examples.params_seed_range ["L"] [] [] ()) js)
        ∧ length js = 2
        ∧ ((∀ k vs, (k, vs) ∈ examples.params_seed_range →
                    k ∈ prepjob.seed_keys → length vs = 1) →
           length js = 2).
Proof.
  apply (prepare_jobs_count examples.keep_items
           (examples.sender examples.params_seed_range ["L"] [] [] ())).
  intros a _. by eexists.
Defined.

(** C1 as stated fails where a seed key has two values: four jobs, while
    the product over the keys that are no seed keys is two. *)
Lemma prepare_jobs_count_two_seeds :
  ∃ self',
    prepare_jobs examples.keep_items
      (examples.sender examples.params_two_seeds ["L"] [] [] ()) = Return self'
    ∧ length <$> jobs self' = Some 4
    ∧ value_count (nonseed examples.params_two_seeds) = 2.
Proof. eexists. split_and!; [vm_compute; reflexivity|done|done]. Qed.

(** ** C8: an empty value list *)

(** C8: where some key has an empty value list, [prepare_jobs] calls [Job]
    for nothing and stores no job, whatever [Job] would do; [__init__] goes
    on to [prepare_folders], and [run_jobs] dispatches nothing. *)
Theorem empty_value_list_no_jobs {V J R M Script W}
    (Job : pydict V → list pystr → list pystr → list pystr → R → result J)
    (SubmittedScript :
       J → BatchSender V J R → M → run_opts → W → result Script * W)
    (params : pydict (list V)) (sys md aux : list pystr) (storage : pystr)
    (cmd slurm : list pystr) (rd : R) (k : pystr) :
  (k, []) ∈ params →
  let self :=
    {| batchsend.params := params; _syspar_keys := sys; _modpar_keys := md;
       _auxpar_keys := aux; cmd_opt := cmd; slurm_opt := slurm; _redef := rd;
       jobs := None; batchsend.storage := None; __dict__ := [] |} in
  prepare_jobs Job self = Return (set_jobs self [])
  ∧ (∀ w, __init__ Job params sys md aux storage cmd slurm rd w
          = prepare_folders (set_jobs self []) storage w)
  ∧ (∀ w self' w',
       __init__ Job params sys md aux storage cmd slurm rd w = (Return self', w') →
       jobs self' = Some []
       ∧ ∀ mode opts (o : W),
           run_jobs SubmittedScript self' mode opts o = (Return (), o)).
Proof.
  intros Hin self.
  assert (Hjobs : prepare_jobs Job self = Return (set_jobs self [])).
  { rewrite prepare_jobs_spec. rewrite product_empty_pool; [done|].
    apply (list_elem_of_fmap_2 snd) in Hin. exact Hin. }
  assert (Hinit : ∀ w, __init__ Job params sys md aux storage cmd slurm rd w
                       = prepare_folders (set_jobs self []) storage w).
  { intros w. unfold __init__. fold self. by rewrite Hjobs. }
  split_and!; [done|done|]. intros w self' w'. rewrite Hinit.
  intros (_ & _ & _ & _ & ->)%folders_facts.prepare_folders_Return.
  split; [done|]. intros mode opts o. done.
Qed.

Lemma empty_value_list_no_jobs_example :
  prepare_jobs (@prepjob.Job_init pyvalues.pyval unit)
    (examples.sender examples.params_empty_list ["L"] ["dW"] [] ())
  = Return (set_jobs (examples.sender examples.params_empty_list ["L"] ["dW"] [] ()) [])
  ∧ (∀ w, __init__ (@prepjob.Job_init pyvalues.pyval unit)
            examples.params_empty_list ["L"] ["dW"] [] "store" [] [] () w
          = prepare_folders
              (set_jobs (examples.sender examples.params_empty_list ["L"] ["dW"] [] ()) [])
              "store" w)
  ∧ (∀ w self' w',
       __init__ (@prepjob.Job_init pyvalues.pyval unit)
         examples.params_empty_list ["L"] ["dW"] [] "store" [] [] () w
       = (Return self', w') →
       jobs self' = Some []
       ∧ ∀ mode opts (o : unit),
           run_jobs (λ _ _ (_ : unit) _ o, (Return (), o)) self' mode opts o
           = (Return (), o)).
Proof.
  apply (empty_value_list_no_jobs (@prepjob.Job_init pyvalues.pyval unit)
           (λ _ _ (_ : unit) _ (o : unit), (Return (), o))
           examples.params_empty_list ["L"] ["dW"] [] "store" [] [] () "dW").
  right. left.
Defined.

(** With the empty list the construction completes on an empty disk: the
    sender holds no job and the five directories exist. *)
Lemma empty_value_list_construction :
  ∃ self' w',
    __init__ (@prepjob.Job_init pyvalues.pyval unit)
      examples.params_empty_list ["L"] ["dW"] [] "store" [] [] ()
      examples.empty_world
    = (Return self', w')
    ∧ jobs self' = Some []
    ∧ size (files w') = 5.
Proof. eexists _, _. split_and!; [vm_compute; reflexivity|done..]. Qed.

(** ** C5: running the expander twice *)


(** C5: two senders with the same parameters in the same key order, the
    same role lists and the same override table get the same jobs in the
    same order (or the same exception), whatever else differs between
    them; so the assignments handed to [Job] and the descriptors of the
    jobs agree too, and running [prepare_jobs] again on a sender that has
    its jobs stores the same jobs once more. *)
Theorem prepare_jobs_deterministic {V J R}
    (Job : pydict V → list pystr → list pystr → list pystr → R → result J)
    (self1 self2 : BatchSender V J R) :
  params self1 = params self2 →
  _syspar_keys self1 = _syspar_keys self2 →
  _modpar_keys self1 = _modpar_keys self2 →
  _auxpar_keys self1 = _auxpar_keys self2 →
  _redef self1 = _redef self2 →
  stored_jobs (prepare_jobs Job self1) = stored_jobs (prepare_jobs Job self2)
  ∧ assignments (params self1) = assignments (params self2)
  ∧ (∀ (descriptor : J → pystr) js1 js2,
       stored_jobs (prepare_jobs Job self1) = Return (Some js1) →
       stored_jobs (prepare_jobs Job self2) = Return (Some js2) →
       length js1 = length js2 ∧ descriptor <$> js1 = descriptor <$> js2)
  ∧ (∀ self1', prepare_jobs Job self1 = Return self1' →
               prepare_jobs Job self1' = Return self1').
Proof.
  intros Hp Hs Hm Ha Hr.
  assert (Hsame : stored_jobs (prepare_jobs Job self1)
                  = stored_jobs (prepare_jobs Job self2)).
  { rewrite !prepare_jobs_spec.
    rewrite (prepare_jobs_inputs Job self1 self2 Hp Hs Hm Ha Hr), <- Hp.
    by destruct (jobs_loop _ _ _ _ _). }
  split_and!; [done|by rewrite Hp| |].
  - intros descriptor js1 js2 H1 H2. rewrite Hsame, H2 in H1. by simplify_eq.
  - intros self1' H1. pose proof H1 as H1'.
    apply prepare_jobs_Return in H1' as (js & -> & _).
    rewrite prepare_jobs_spec in H1 |- *.
    rewrite <- (prepare_jobs_inputs Job self1 (set_jobs self1 js)) by done.
    cbn [params set_jobs].
    destruct (jobs_loop _ _ _ _ _) as [js'|e]; [|done]. simpl in *. by simplify_eq.
Qed.

Lemma prepare_jobs_deterministic_example :
  let self1 : BatchSender pyvalues.pyval _ unit :=
    examples.sender examples.params_L_dW ["L"] ["dW"] [] () in
  let self2 :=
    {| params := examples.params_L_dW; _syspar_keys := ["L"];
       _modpar_keys := ["dW"]; _auxpar_keys := []; cmd_opt := ["--verbose"];
       slurm_opt := ["#SBATCH --partition=test"]; _redef := ();
       jobs := Some []; storage := Some "/scratch"; __dict__ := [] |} in
  stored_jobs (prepare_jobs prepjob.Job_init self1)
  = stored_jobs (prepare_jobs prepjob.Job_init self2)
  ∧ assignments (params self1) = assignments (params self2)
  ∧ (∀ (descriptor : _ → pystr) js1 js2,
       stored_jobs (prepare_jobs prepjob.Job_init self1) = Return (Some js1) →
       stored_jobs (prepare_jobs prepjob.Job_init self2) = Return (Some js2) →
       length js1 = length js2 ∧ descriptor <$> js1 = descriptor <$> js2)
  ∧ (∀ self1', prepare_jobs prepjob.Job_init self1 = Return self1' →
               prepare_jobs prepjob.Job_init self1' = Return self1').
Proof.
  intros self1 self2.
  apply (prepare_jobs_deterministic prepjob.Job_init self1 self2); reflexivity.
Defined.

(** ** C4: the order of the jobs *)


(** C4: the jobs are made, in this order, from the Cartesian product
    [enumerate] of the value lists in the declared key order; for
    [{L: [8, 10], dW: [1.0, 2.0]}] with system keys [[L]] and module keys
    [[dW]] these are four jobs, with the assignments and the descriptors
    of the example. *)
Theorem jobs_in_key_order :
  (∀ V J R
     (Job : pydict V → list pystr → list pystr → list pystr → R → result J)
     (self : BatchSender V J R),
     NoDup (keys (params self)) →
     (∀ a, a ∈ enumerate (params self) → ∃ j, make Job self a = Return j) →
     ∃ js, prepare_jobs Job self = Return (set_jobs self js)
           ∧ Forall2 (λ a j, make Job self a = Return j)
                     (enumerate (params self)) js)
  ∧ ∃ js, prepare_jobs prepjob.Job_init examples.sender_L_dW
          = Return (set_jobs examples.sender_L_dW js)
          ∧ length js = 4
          ∧ prepjob.job_params <$> js
            = [[("L", pyvalues.PyInt 8); ("dW", examples.f1_0)];
               [("L", pyvalues.PyInt 8); ("dW", examples.f2_0)];
               [("L", pyvalues.PyInt 10); ("dW", examples.f1_0)];
               [("L", pyvalues.PyInt 10); ("dW", examples.f2_0)]]
          ∧ prepjob.descriptor pyvalues.str <$> js
            = ["L_8_dW_1.0"; "L_8_dW_2.0"; "L_10_dW_1.0"; "L_10_dW_2.0"].
Proof.
  split.
  - intros V J R Job self Hnd Hok.
    rewrite <- (values_enumerate (params self) Hnd) in Hok |- *.
    by apply prepare_jobs_total.
  - eexists. split_and!; [vm_compute; reflexivity|done..].
Qed.

Lemma jobs_in_key_order_example :
  ∃ js, prepare_jobs examples.keep_items
          (examples.sender examples.params_L_dW ["L"] ["dW"] [] ())
        = Return (set_jobs (examples.sender examples.params_L_dW ["L"] ["dW"] [] ()) js)
        ∧ Forall2 (λ a j, Return a = Return j)
            [[("L", pyvalues.PyInt 8); ("dW", examples.f1_0)];
             [("L", pyvalues.PyInt 8); ("dW", examples.f2_0)];
             [("L", pyvalues.PyInt 10); ("dW", examples.f1_0)];
             [("L", pyvalues.PyInt 10); ("dW", examples.f2_0)]] js.
Proof.
  apply (proj1 jobs_in_key_order _ _ _ examples.keep_items
           (examples.sender examples.params_L_dW ["L"] ["dW"] [] ())).
  - by apply (bool_decide_unpack _).
  - intros a _. by eexists.
Defined.

(** ** C2: keys without a role *)

(** A tuple of the product exists as soon as no value list is empty. *)
Lemma product_nonempty {V} (pools : list (list V)) :
  Forall (λ pool, pool ≠ []) pools → product pools ≠ [].
Proof.
  intros Hall Hnil. apply (f_equal length) in Hnil.
  rewrite product_length in Hnil. simpl in Hnil.
  induction Hall as [|pool pools Hp _ IH]; simpl in Hnil; [done|].
  destruct pool; [done|]. simpl in Hnil. apply IH. lia.
Qed.

Lemma classified_false sys md aux k :
  ((k ∉ sys) ∧ (k ∉ md) ∧ (k ∉ aux) ∧ (k ∉ prepjob.seed_keys))
  ∨ 2 ≤ prepjob.roles sys md aux k →
  prepjob.classified sys md aux k = false.
Proof.
  unfold prepjob.classified. intros [(Hs & Hm & Ha & Hseed)|Htwo].
  - assert (Hz : prepjob.roles sys md aux k = 0).
    { unfold prepjob.roles. rewrite !filter_cons, filter_nil.
      by rewrite !decide_False. }
    rewrite Hz. simpl. apply bool_decide_eq_false. tauto.
  - apply orb_false_intro; apply bool_decide_eq_false; lia.
Qed.

(** C2, as the code has it: the roles of a key are checked where a [Job]
    is made (by the constructor modelled from the spec).  So where no value
    list is empty, a key of the parameter set that is in none of the three
    role lists without being a seed key, or in more than one of them, makes
    [__init__] raise the configuration error before [prepare_folders] is
    reached: the file system is as it was, and no sender exists that
    [run_jobs] could dispatch from. *)
Theorem unclassified_key_raises {V R} (params : pydict (list V))
    (sys md aux : list pystr) (storage : pystr) (cmd slurm : list pystr)
    (rd : R) (w : world) (k : pystr) :
  NoDup (keys params) →
  Forall (λ kv, kv.2 ≠ []) params →
  k ∈ keys params →
  ((k ∉ sys) ∧ (k ∉ md) ∧ (k ∉ aux) ∧ (k ∉ prepjob.seed_keys))
  ∨ 2 ≤ prepjob.roles sys md aux k →
  __init__ prepjob.Job_init params sys md aux storage cmd slurm rd w
  = (Raise ConfigurationError, w).
Proof.
  intros Hnd Hall Hk Hrole%classified_false. unfold __init__.
  rewrite prepare_jobs_spec. cbn [batchsend.params].
  destruct (product (values params)) as [|i tuples] eqn:Hprod.
  { exfalso. eapply product_nonempty; [|done]. unfold values.
    by apply Forall_fmap. }
  assert (Hlen : length i = length (keys params)).
  { rewrite (product_tuple_length (values params) i) by (rewrite Hprod; left).
    unfold keys, values. by rewrite !length_fmap. }
  rewrite (jobs_loop_Raise _ _ _ _ _ _ ConfigurationError); [done|].
  unfold make, prepjob.Job_init. cbn [_syspar_keys _modpar_keys _auxpar_keys].
  rewrite dict_NoDup by (by rewrite zip_keys).
  change (keys (zip (keys params) i)) with ((zip (keys params) i).*1).
  rewrite zip_keys by done.
  destruct (forallb _ _) eqn:Hf; [|done].
  rewrite forallb_forall in Hf. apply list_elem_of_In, Hf in Hk. congruence.
Qed.

Lemma unclassified_key_raises_example :
  __init__ (@prepjob.Job_init pyvalues.pyval unit)
    (examples.params_L_dW ++ [("Gamma", [pyvalues.PyInt 0])])
    ["L"] ["dW"] [] "store" [] [] () examples.empty_world
  = (Raise ConfigurationError, examples.empty_world).
Proof.
  apply (unclassified_key_raises
           (examples.params_L_dW ++ [("Gamma", [pyvalues.PyInt 0])])
           ["L"] ["dW"] [] "store" [] [] () examples.empty_world "Gamma").
  - by apply (bool_decide_unpack _).
  - by repeat constructor.
  - by apply (bool_decide_unpack _).
  - left. split_and!; by apply (bool_decide_unpack _).
Defined.

(** C2 as stated fails where a value list is empty: no [Job] is made, so
    nothing checks the key [Gamma], which has no role; [__init__] returns
    and has created the five directories. *)
Lemma unclassified_key_with_empty_list :
  ∃ self' w',
    __init__ (@prepjob.Job_init pyvalues.pyval unit)
      (examples.params_empty_list ++ [("Gamma", [pyvalues.PyInt 0])])
      ["L"] ["dW"] [] "store" [] [] () examples.empty_world
    = (Return self', w')
    ∧ prepjob.classified ["L"] ["dW"] [] "Gamma" = false
    ∧ jobs self' = Some []
    ∧ size (files w') = 5.
Proof. eexists _, _. split_and!; [vm_compute; reflexivity|done..]. Qed.

(** ** C3: the folders *)

Import folders_facts.

(** C3: a run of [prepare_folders] that completes leaves the storage root
    and its four subdirectories as directories and keeps every node that
    existed; a second run on the same root then completes as well, creates
    nothing and changes nothing, neither on disk nor in the sender. *)
Theorem prepare_folders_idempotent {V J R} (self : BatchSender V J R)
    (storage : pystr) (w : world) (self' : BatchSender V J R) (w' : world) :
  prepare_folders self storage w = (Return self', w') →
  os.path_isdir w' storage = true
  ∧ Forall (λ subdir, os.path_isdir w' (storage ++ "/" ++ subdir ++ "/") = true)
           ["tmp"; "log"; "results"; "log_deps"]
  ∧ files w ⊆ files w'
  ∧ prepare_folders self' storage w' = (Return self', w').
Proof.
  intros (Hsub & _ & Hroot & Hall & ->)%prepare_folders_Return.
  split_and!; [done|done|done|].
  rewrite prepare_folders_isdir by done. f_equal. f_equal.
  rewrite <- (update_dict_update (set_storage self storage)
                (subdirs_of storage subdirs_list [])) at 2
    by apply subdirs_of_keys.
  done.
Qed.

Lemma prepare_folders_idempotent_example :
  os.path_isdir
    (prepare_folders examples.sender_L_dW "store" examples.empty_world).2 "store" = true
  ∧ Forall (λ subdir,
              os.path_isdir
                (prepare_folders examples.sender_L_dW "store" examples.empty_world).2
                ("store" ++ "/" ++ subdir ++ "/") = true)
           ["tmp"; "log"; "results"; "log_deps"]
  ∧ files examples.empty_world
    ⊆ files (prepare_folders examples.sender_L_dW "store" examples.empty_world).2
  ∧ prepare_folders
      (update_dict (set_storage examples.sender_L_dW "store")
         (subdirs_of "store" subdirs_list []))
      "store" (prepare_folders examples.sender_L_dW "store" examples.empty_world).2
    = (Return (update_dict (set_storage examples.sender_L_dW "store")
                 (subdirs_of "store" subdirs_list [])),
       (prepare_folders examples.sender_L_dW "store" examples.empty_world).2).
Proof.
  apply (prepare_folders_idempotent examples.sender_L_dW "store" examples.empty_world).
  vm_compute. reflexivity.
Defined.

(** [os.mkdir] makes one directory: a storage root below a directory that
    does not exist is an error of the first run. *)
Lemma prepare_folders_missing_parent :
  prepare_folders examples.sender_L_dW "scratch/store" examples.empty_world
  = (Raise FileNotFoundError, examples.empty_world).
Proof. vm_compute. reflexivity. Qed.

(** ** C7: the runner *)

Import runner_facts.

(** C7, with the constructor of [SubmittedScript] modelled from the spec:
    [run_jobs] dispatches every job of the sender, in the order of
    [self.jobs], and returns; the ledger gains one entry per job, in that
    order, holding the job's descriptor and the outcome of its dispatch,
    so that a rejected dispatch is on record and the jobs behind it are
    dispatched all the same. *)
Theorem run_jobs_dispatches_all {V J R Text O}
    (descriptor : J → pystr)
    (render : J → scriptsub.run_mode → run_opts → Text)
    (dispatch : Text → scriptsub.run_mode → O → scriptsub.outcome * O)
    (self : BatchSender V J R) (mode : scriptsub.run_mode) (opts : run_opts)
    (js : list J) (w : scriptsub.runner_world O) :
  jobs self = Some js →
  ∃ w', run_jobs (scriptsub.SubmittedScript descriptor render dispatch)
          self mode opts w = (Return (), w')
        ∧ scriptsub.ledger w'
          = scriptsub.ledger w
            ++ zip (descriptor <$> js)
                   (scriptsub.outcomes render dispatch mode opts js
                      (scriptsub.outside w)).1
        ∧ (scriptsub.ledger w').*1
          = (scriptsub.ledger w).*1 ++ (descriptor <$> js).
Proof.
  intros Hjs. unfold run_jobs. rewrite Hjs, run_loop_ledger.
  eexists. split_and!; [done|done|]. cbn [scriptsub.ledger].
  rewrite fmap_app. f_equal. apply fst_zip.
  rewrite outcomes_length, length_fmap. done.
Qed.



Lemma run_jobs_dispatches_all_example :
  ∃ w', run_jobs
          (scriptsub.SubmittedScript (prepjob.descriptor pyvalues.str)
             (λ job _ _, prepjob.descriptor pyvalues.str job) examples.rejecting_backend)
          (set_jobs examples.sender_L_dW examples.three_jobs) scriptsub.Queued default_opts
          {| scriptsub.outside := 7%Z; scriptsub.ledger := [] |}
        = (Return (), w')
        ∧ scriptsub.ledger w'
          = [("L_8_dW_1.0", scriptsub.Accepted (Some 7%Z));
             ("L_8_dW_2.0", scriptsub.Rejected);
             ("L_10_dW_1.0", scriptsub.Accepted (Some 8%Z))]
        ∧ (scriptsub.ledger w').*1 = ["L_8_dW_1.0"; "L_8_dW_2.0"; "L_10_dW_1.0"].
Proof.
  exact (run_jobs_dispatches_all (prepjob.descriptor pyvalues.str)
           (λ job _ _, prepjob.descriptor pyvalues.str job) examples.rejecting_backend
           (set_jobs examples.sender_L_dW examples.three_jobs) scriptsub.Queued default_opts
           examples.three_jobs {| scriptsub.outside := 7%Z; scriptsub.ledger := [] |}
           eq_refl).
Defined.

(** [run_jobs] itself handles no exception: with a constructor that
    raises for the second job, the third one is never dispatched. *)
Lemma run_jobs_propagates_exception :
  run_jobs (V := unit) (R := unit)
    (λ (job : nat) _ (_ : unit) _ (log : list nat),
       if bool_decide (job = 2) then (Raise ValueError, log)
       else (Return (), log ++ [job]))
    (set_jobs (examples.sender [] [] [] [] ()) [1; 2; 3]) () default_opts []
  = (Raise ValueError, [1]).
Proof. reflexivity. Qed.

(** ** C9: when [_extract_disorder] returns *)

Import strings_facts utils_facts.

(** C9, as the code has it: the occurrences of the delimited key in the
    string behind an underscore are counted as [str.split] and [str.count]
    find them, from the left and without overlap.  Where that count is not
    one, the call raises [ValueError]; where it is one, the call converts
    the token behind the occurrence and returns it with the rest, or raises
    [ValueError] where the token is no number; so it returns a pair only
    with the count at one and a token that [np.float] accepts. *)
Theorem extract_disorder_returns {F} (np_float : pystr → option F)
    (s k : pystr) :
  (Py.count ("_" ++ s) (delimited k) ≠ 1 →
   utils._extract_disorder np_float s k = Raise ValueError)
  ∧ (∀ i, Py.count ("_" ++ s) (delimited k) = 1 →
          Py.find ("_" ++ s) (delimited k) = Some i →
          utils._extract_disorder np_float s k
          = match np_float (token (behind s k i)) with
            | Some d =>
                Return (Py.lstrip (take i ("_" ++ s)) "_"
                          ++ drop (length (token (behind s k i))) (behind s k i),
                        d)
            | None => Raise ValueError
            end)
  ∧ (∀ rest d, utils._extract_disorder np_float s k = Return (rest, d) →
               Py.count ("_" ++ s) (delimited k) = 1
               ∧ ∃ i, Py.find ("_" ++ s) (delimited k) = Some i
                      ∧ np_float (token (behind s k i)) = Some d).
Proof.
  split_and!.
  - apply extract_disorder_not_once.
  - intros i Hc Hf. by rewrite (extract_disorder_once np_float s k i).
  - intros rest d Hret.
    destruct (decide (Py.count ("_" ++ s) (delimited k) = 1)) as [Hc|Hc].
    + split; [done|]. destruct (count_loop_once _ _ _ Hc) as [i Hf].
      exists i. split; [done|].
      rewrite (extract_disorder_once np_float s k i Hc Hf) in Hret.
      unfold finish in Hret. destruct (np_float _); by simplify_eq.
    + by rewrite extract_disorder_not_once in Hret.
Qed.

Lemma extract_disorder_returns_example :
  utils._extract_disorder pyvalues.float_of_decimal "L_8" "dW"
  = Raise ValueError
  ∧ utils._extract_disorder pyvalues.float_of_decimal "L_8_dW_1.0_W_2" "dW"
    = Return ("L_8_W_2", 1%Q).
Proof.
  split.
  - apply (proj1 (extract_disorder_returns pyvalues.float_of_decimal "L_8" "dW")).
    vm_compute. discriminate.
  - apply (proj1 (proj2 (extract_disorder_returns pyvalues.float_of_decimal
                           "L_8_dW_1.0_W_2" "dW")) 4);
      vm_compute; reflexivity.
Defined.

(** C9 as stated fails where two occurrences overlap: in [_1_1_2] the key
    [_1_] starts at the indices 0 and 2, [split] finds the first one only,
    and the call returns. *)
Lemma extract_disorder_overlapping_key :
  Py.occurrences ("_" ++ "1_1_2") (delimited "1") = [0; 2]
  ∧ Py.count ("_" ++ "1_1_2") (delimited "1") = 1
  ∧ utils._extract_disorder pyvalues.float_of_decimal "1_1_2" "1"
    = Return ("_2", 1%Q).
Proof. split_and!; vm_compute; reflexivity. Qed.

(** ** C6: from the descriptor back to a value *)

Lemma tokens_cons {V} (str : V → pystr) k v pairs :
  tokens str ((k, v) :: pairs) = k :: str v :: tokens str pairs.
Proof. done. Qed.

Lemma underscored_tokens {V} (str : V → pystr) pairs :
  underscored ((λ kv, kv.1 ++ "_" ++ str kv.2) <$> pairs)
  = underscored (tokens str pairs).
Proof.
  induction pairs as [|[k v] pairs IH]; [done|].
  rewrite fmap_cons, tokens_cons, !underscored_cons, IH. cbn [fst snd].
  by rewrite <- !app_assoc.
Qed.

Lemma key_values_tokens {V} (str : V → pystr) pairs :
  prepjob.key_values str pairs = Py.join "_" (tokens str pairs).
Proof.
  unfold prepjob.key_values. destruct pairs as [|[k v] pairs]; [done|].
  rewrite fmap_cons, tokens_cons.
  rewrite !join_underscored, underscored_cons, underscored_tokens. cbn [fst snd].
  by rewrite <- !app_assoc.
Qed.

Lemma tokens_plain {V} (str : V → pystr) pairs :
  Forall (λ kv, word kv.1 ∧ word (str kv.2)) pairs →
  Forall plain (tokens str pairs).
Proof.
  unfold tokens. induction 1 as [|[k v] pairs [[_ Hk] [_ Hv]] _ IH]; [done|].
  rewrite bind_cons. by repeat constructor.
Qed.

Lemma tokens_split {V} (str : V → pystr) before k v after :
  tokens str (before ++ (k, v) :: after)
  = tokens str before ++ k :: str v :: tokens str after.
Proof. unfold tokens. by rewrite bind_app, bind_cons. Qed.

(** What [_extract_disorder] returns for a key of the descriptor that
    occurs once among its tokens. *)
Lemma extract_disorder_descriptor {V F} (str : V → pystr)
    (np_float : pystr → option F) before k v after f :
  Forall (λ kv, word kv.1 ∧ word (str kv.2)) (before ++ (k, v) :: after) →
  k ∉ tokens str before → k ∉ tokens str after →
  np_float (str v) = Some f →
  utils._extract_disorder np_float
    (prepjob.key_values str (before ++ (k, v) :: after)) k
  = Return (Py.lstrip (underscored (tokens str before)) "_"
              ++ underscored (tokens str after), f).
Proof.
  intros Hall Hnb Hna Hf. rewrite key_values_tokens, tokens_split.
  pose proof (tokens_plain str _ Hall) as Hplain.
  rewrite tokens_split in Hplain.
  apply Forall_app in Hplain as [Hpb Hrest].
  apply Forall_cons in Hrest as [Hk Hrest]. apply Forall_cons in Hrest as [Hv Hpa].
  by apply extract_disorder_tokens.
Qed.

Module descriptor_facts.
Import builtins Py PyFacts strings_facts utils_facts vocabulary.

(** The descriptor behind an underscore, cut at one of its pairs. *)
Lemma descriptor_cut {V} (str : V → pystr) before k v after :
  "_" ++ prepjob.key_values str (before ++ (k, v) :: after)
  = underscored (tokens str before)
      ++ ("_" ++ k ++ "_") ++ str v ++ underscored (tokens str after).
Proof.
  rewrite key_values_tokens, tokens_split.
  destruct (tokens str before ++ k :: str v :: tokens str after)
    as [|t toks] eqn:E; [by destruct (tokens str before)|].
  rewrite join_underscored, <- (underscored_cons t toks), <- E.
  rewrite underscored_app, !underscored_cons. by rewrite <- !app_assoc.
Qed.

(** The descriptor of the pairs left, where the first pair is not the one
    taken out and the descriptor starts with no underscore. *)
Lemma descriptor_rest {V} (str : V → pystr) before k v after :
  before ≠ [] ∨ after = [] →
  startswith (prepjob.key_values str (before ++ (k, v) :: after)) "_" = false →
  lstrip (underscored (tokens str before)) "_" ++ underscored (tokens str after)
  = prepjob.key_values str (before ++ after).
Proof.
  intros Hpos Hstart. destruct before as [|[k0 v0] before].
  - destruct Hpos as [?| ->]; done.
  - rewrite <- !app_comm_cons, !key_values_tokens, !tokens_cons in *.
    rewrite join_underscored in Hstart. rewrite join_underscored.
    rewrite underscored_cons.
    replace (tokens str (before ++ after))
      with (tokens str before ++ tokens str after)
      by (unfold tokens; by rewrite bind_app).
    destruct k0 as [|c k0].
    { rewrite underscored_cons in Hstart. cbn [app] in Hstart.
      rewrite startswith_cons, startswith_nil in Hstart.
      by rewrite bool_decide_eq_true_2 in Hstart. }
    cbn [app fst] in Hstart |- *.
    rewrite startswith_cons, startswith_nil, andb_true_r in Hstart.
    apply bool_decide_eq_false in Hstart.
    cbn [lstrip].
    rewrite bool_decide_eq_true_2 by (by apply list_elem_of_singleton).
    rewrite bool_decide_eq_false_2
      by (intros ->%list_elem_of_singleton; by apply Hstart).
    rewrite !underscored_cons, underscored_app. cbn [app].
    f_equal. rewrite <- app_assoc. f_equal. rewrite <- app_comm_cons. f_equal.
    by rewrite <- app_assoc.
Qed.

(** Where the tokens of a descriptor hold no underscore, a key that is
    none of the other tokens occurs once, at its pair. *)
Lemma descriptor_words_once {V} (str : V → pystr) before k v after :
  Forall (λ kv, word kv.1 ∧ word (str kv.2)) (before ++ (k, v) :: after) →
  k ∉ tokens str before → k ∉ tokens str after →
  delimited k = "_" ++ k ++ "_"
  ∧ plain (str v)
  ∧ find ("_" ++ prepjob.key_values str (before ++ (k, v) :: after)) (delimited k)
    = Some (length (underscored (tokens str before)))
  ∧ count ("_" ++ prepjob.key_values str (before ++ (k, v) :: after)) (delimited k)
    = 1.
Proof.
  intros Hall Hnb Hna.
  pose proof (tokens_plain str _ Hall) as Hplain.
  rewrite tokens_split in Hplain.
  apply Forall_app in Hplain as [Hpb Hrest].
  apply Forall_cons in Hrest as [Hk Hrest]. apply Forall_cons in Hrest as [Hv Hpa].
  split_and!; [by apply delimited_plain|done| |].
  - rewrite descriptor_cut, delimited_plain by done. by apply find_underscored.
  - destruct (decide (count ("_" ++ prepjob.key_values str (before ++ (k, v) :: after))
                        (delimited k) = 1)) as [Hc|Hc]; [done|].
    apply (extract_disorder_not_once (λ _, Some ())) in Hc.
    rewrite (extract_disorder_descriptor str (λ _, Some ()) before k v after ())
      in Hc by done.
    done.
Qed.

End descriptor_facts.

Import descriptor_facts.

(** C6, as the code has it (descriptors as the spec gives them): take a
    key of a job's descriptor that has no underscore at its ends, and let
    the key between two underscores occur in the descriptor behind an
    underscore first at its own pair and, as [str.count] counts, once.  Let
    its rendered value hold no underscore and let [np.float] read it as
    [f].  Then [_extract_disorder] returns [f]; and where the descriptor
    starts with no underscore and the pair is not the first of several, it
    returns [f] with the descriptor of the other pairs.  The other keys and
    values may hold underscores, as [min_seed] and [max_seed] do. *)
Theorem descriptor_round_trip {V R F} (str : V → pystr)
    (np_float : pystr → option F) (job : prepjob.Job V R)
    (before : list (pystr * V)) (k : pystr) (v : V)
    (after : list (pystr * V)) (f : F) :
  prepjob.descriptor_pairs job = before ++ (k, v) :: after →
  delimited k = "_" ++ k ++ "_" →
  Py.find ("_" ++ prepjob.descriptor str job) (delimited k)
  = Some (length (underscored (tokens str before))) →
  Py.count ("_" ++ prepjob.descriptor str job) (delimited k) = 1 →
  plain (str v) →
  np_float (str v) = Some f →
  (∃ rest, utils._extract_disorder np_float (prepjob.descriptor str job) k
           = Return (rest, f))
  ∧ (before ≠ [] ∨ after = [] →
     Py.startswith (prepjob.descriptor str job) "_" = false →
     utils._extract_disorder np_float (prepjob.descriptor str job) k
     = Return (prepjob.key_values str (before ++ after), f)).
Proof.
  intros Hpairs Hk Hfind Hcount Hv Hf. unfold prepjob.descriptor in *.
  rewrite Hpairs in *.
  assert (Hret : utils._extract_disorder np_float
                   (prepjob.key_values str (before ++ (k, v) :: after)) k
                 = Return (Py.lstrip (underscored (tokens str before)) "_"
                             ++ underscored (tokens str after), f)).
  { rewrite (extract_disorder_once np_float _ k _ Hcount Hfind).
    unfold behind. rewrite Hk, descriptor_cut.
    rewrite take_app_length, <- drop_drop, drop_app_length, drop_app_length.
    unfold finish.
    rewrite token_app by (done || apply underscored_boundary).
    by rewrite Hf, drop_app_length. }
  rewrite Hret. split; [by eexists|]. intros Hpos Hstart.
  by rewrite (descriptor_rest str before k v after).
Qed.

Lemma descriptor_round_trip_example :
  utils._extract_disorder pyvalues.float_of_decimal
    (prepjob.descriptor pyvalues.str examples2.job_with_seeds) "min_seed"
  = Return ("L_8_dW_1.0_max_seed_10", 1%Q).
Proof.
  apply (descriptor_round_trip pyvalues.str pyvalues.float_of_decimal
           examples2.job_with_seeds
           [("L", pyvalues.PyInt 8); ("dW", examples.f1_0)] "min_seed"
           (pyvalues.PyInt 1) [("max_seed", pyvalues.PyInt 10)] 1%Q).
  - reflexivity.
  - reflexivity.
  - vm_compute. reflexivity.
  - vm_compute. reflexivity.
  - by apply (bool_decide_unpack _).
  - reflexivity.
  - by left.
  - reflexivity.
Defined.

(** C6 as stated fails for a value that is no number, which
    [np.float] refuses; for a key that also stands between two underscores
    before its pair, here as the value of the key before it; for a key with
    an underscore at its end, which is looked up without it; and for the
    first of several keys the rest keeps the underscore that stood behind
    the value. *)
Lemma descriptor_round_trip_fails :
  prepjob.descriptor pyvalues.str examples.job_with_name = "L_8_disorder_uniform"
  ∧ utils._extract_disorder pyvalues.float_of_decimal
      (prepjob.descriptor pyvalues.str examples.job_with_name) "disorder"
    = Raise ValueError
  ∧ prepjob.descriptor pyvalues.str examples2.job_value_is_key = "mode_W_W_1.0"
  ∧ utils._extract_disorder pyvalues.float_of_decimal
      (prepjob.descriptor pyvalues.str examples2.job_value_is_key) "W"
    = Raise ValueError
  ∧ prepjob.descriptor pyvalues.str examples2.job_key_ends_in_underscore
    = "L_8_x__1.0"
  ∧ utils._extract_disorder pyvalues.float_of_decimal
      (prepjob.descriptor pyvalues.str examples2.job_key_ends_in_underscore) "x_"
    = Raise ValueError
  ∧ prepjob.descriptor pyvalues.str examples.job_L_8_dW_1_0 = "L_8_dW_1.0"
  ∧ utils._extract_disorder pyvalues.float_of_decimal
      (prepjob.descriptor pyvalues.str examples.job_L_8_dW_1_0) "L"
    = Return ("_dW_1.0", 8%Q)
  ∧ prepjob.key_values pyvalues.str [("dW", examples.f1_0)] = "dW_1.0".
Proof. split_and!; vm_compute; reflexivity. Qed.

(** ** C10: the file of a single model *)

(** C10: where the joined path is no directory, [extract_single_model]
    returns [None]; where it is one and [glob] finds no [.hdf5] file in it,
    the [IndexError] is caught, [file] stays unbound, and the [return]
    raises [UnboundLocalError]; where [glob] finds files, the first one is
    returned. *)
Theorem extract_single_model_unbound_file
    (glob : world → pystr → list pystr)
    (topdir descriptor syspar modpar : pystr) (w : world) :
  let filepath := os.path_join topdir [descriptor; syspar; modpar] in
  (os.path_isdir w filepath = false →
   utils.extract_single_model glob topdir descriptor syspar modpar w
   = (Return None, ["folder " ++ filepath ++ " does not exist!"]))
  ∧ (os.path_isdir w filepath = true →
     glob w (filepath ++ "/*.hdf5") = [] →
     utils.extract_single_model glob topdir descriptor syspar modpar w
     = (Raise UnboundLocalError,
        ["file in folder " ++ filepath ++ " not present!"]))
  ∧ (os.path_isdir w filepath = true →
     ∀ f fs, glob w (filepath ++ "/*.hdf5") = f :: fs →
     utils.extract_single_model glob topdir descriptor syspar modpar w
     = (Return (Some f), [])).
Proof.
  intros filepath. unfold utils.extract_single_model. fold filepath.
  split_and!.
  - by intros ->.
  - by intros -> ->.
  - by intros -> f fs ->.
Qed.


Lemma extract_single_model_unbound_file_example :
  utils.extract_single_model (λ _ _, []) "results" "xxz" "L_8" "dW_1.0" examples.results_world
  = (Raise UnboundLocalError,
     ["file in folder results/xxz/L_8/dW_1.0 not present!"]).
Proof.
  apply (proj1 (proj2 (extract_single_model_unbound_file (λ _ _, [])
                         "results" "xxz" "L_8" "dW_1.0" examples.results_world)));
    vm_compute; reflexivity.
Defined.

Lemma extract_single_model_missing_folder :
  utils.extract_single_model (λ _ _, []) "results" "xxz" "L_8" "dW_2.0" examples.results_world
  = (Return None, ["folder results/xxz/L_8/dW_2.0 does not exist!"]).
Proof. vm_compute. reflexivity. Qed.

(** * Further properties of the sources *)

(** ** [BatchSender]: what the jobs are *)

Module expansion_facts.
Import builtins batchsend vocabulary vocabulary2 builtins_facts batchsend_facts.

Section facts.
Context {V : Type}.
Implicit Types (params : pydict (list V)) (a : pydict V).

Lemma enumerate_chooses params a : a ∈ enumerate params ↔ chooses a params.
Proof.
  unfold chooses. revert a. induction params as [|[k vs] params IH]; intros a.
  - cbn [enumerate]. rewrite list_elem_of_singleton. split.
    + intros ->. constructor.
    + by intros ->%Forall2_nil_inv_r.
  - cbn [enumerate]. rewrite list_elem_of_bind. split.
    + intros (v & Ha & Hv). apply list_elem_of_fmap in Ha as (a' & -> & Ha').
      constructor; [done|]. by apply IH.
    + intros ([k' v] & a' & [Hk Hv] & Ha' & ->)%Forall2_cons_inv_r.
      simpl in Hk, Hv. subst k'. exists v. split; [|done].
      apply list_elem_of_fmap. exists a'. split; [done|]. by apply IH.
Qed.

Lemma enumerate_NoDup params :
  Forall (λ kvs, NoDup kvs.2) params → NoDup (enumerate params).
Proof.
  induction 1 as [|[k vs] params Hvs _ IH]; cbn [enumerate].
  - apply NoDup_singleton.
  - simpl in Hvs. apply NoDup_bind; [| |done].
    + intros v1 v2 a _ _ (a1 & Ha & _)%list_elem_of_fmap
        (a2 & Hb & _)%list_elem_of_fmap. congruence.
    + intros v _. apply NoDup_fmap; [|done]. by intros a1 a2 [= ->].
Qed.

End facts.

End expansion_facts.

Import builtins batchsend vocabulary vocabulary2.
Import builtins_facts batchsend_facts expansion_facts.

(** X1: The jobs that [prepare_jobs] stores are the jobs of the choices of
    one value per key, each from the list of its key and in the order of
    the keys: every job is made from such a choice, and every such choice
    has its job. *)
Theorem prepare_jobs_one_job_per_choice {V J R}
    (Job : pydict V → list pystr → list pystr → list pystr → R → result J)
    (self self' : BatchSender V J R) :
  NoDup (keys (params self)) →
  prepare_jobs Job self = Return self' →
  ∃ js, jobs self' = Some js
        ∧ ∀ j, j ∈ js ↔ ∃ a, chooses a (params self)
                             ∧ make Job self a = Return j.
Proof.
  intros Hnd (js & -> & Hall)%prepare_jobs_Return. exists js. split; [done|].
  rewrite values_enumerate in Hall by done. intros j. split.
  - intros (n & Hn)%list_elem_of_lookup_1.
    destruct (Forall2_lookup_r _ _ _ _ _ Hall Hn) as (a & Ha & Hmake).
    exists a. split; [|done]. apply list_elem_of_lookup_2 in Ha.
    by apply enumerate_chooses.
  - intros (a & Ha%enumerate_chooses & Hmake).
    apply list_elem_of_lookup_1 in Ha as (n & Hn).
    destruct (Forall2_lookup_l _ _ _ _ _ Hall Hn) as (j' & Hj & Hmake').
    rewrite Hmake in Hmake'. injection Hmake' as <-.
    by apply list_elem_of_lookup_2 in Hj.
Qed.

Lemma prepare_jobs_one_job_per_choice_example :
  ∃ js, jobs (set_jobs examples.sender_L_dW
                (examples.job_of <$> assignments examples.params_L_dW)) = Some js
        ∧ ∀ j, j ∈ js ↔ ∃ a, chooses a (params examples.sender_L_dW)
                             ∧ make (λ a _ _ _ _, Return (examples.job_of a))
                                 examples.sender_L_dW a = Return j.
Proof.
  apply (prepare_jobs_one_job_per_choice
           (λ a _ _ _ _, Return (examples.job_of a)) examples.sender_L_dW).
  - by apply (bool_decide_unpack _).
  - reflexivity.
Defined.

(** X2: Where no value list holds a value twice, no assignment is handed to
    [Job] twice. *)
Theorem assignments_without_repetition {V} (params : pydict (list V)) :
  NoDup (keys params) →
  Forall (λ kvs, NoDup kvs.2) params →
  NoDup (assignments params).
Proof. intros Hnd Hall. rewrite values_enumerate by done. by apply enumerate_NoDup. Qed.

Lemma assignments_without_repetition_example :
  NoDup (assignments examples.params_seed_range).
Proof.
  apply (assignments_without_repetition examples.params_seed_range).
  - by apply (bool_decide_unpack _).
  - repeat first [apply Forall_nil_2 | apply Forall_cons_2]; cbn [snd];
      repeat first [apply NoDup_nil_2 | apply NoDup_cons_2];
      first [by intros []%elem_of_nil
            | by intros [[=]|[]%elem_of_nil]%elem_of_cons].
Defined.

(** X3: The exception of the first assignment that [Job] rejects is the one
    that [__init__] raises, and the file system is as it was: the jobs are
    made before any folder. *)
Theorem init_raises_first_rejection {V J R}
    (Job : pydict V → list pystr → list pystr → list pystr → R → result J)
    (params : pydict (list V)) (sys md aux : list pystr) (storage : pystr)
    (cmd slurm : list pystr) (rd : R) (w : world)
    (accepted : list (pydict V)) (a : pydict V) (others : list (pydict V))
    (e : exn) :
  assignments params = accepted ++ a :: others →
  Forall (λ a', ∃ j, Job a' sys md aux rd = Return j) accepted →
  Job a sys md aux rd = Raise e →
  __init__ Job params sys md aux storage cmd slurm rd w = (Raise e, w).
Proof.
  intros Has Hacc Ha. unfold __init__. rewrite prepare_jobs_spec.
  cbn [batchsend.params]. unfold assignments in Has.
  assert (Hloop : ∀ tuples acc acc_as,
    (λ i, dict (zip (keys params) i)) <$> tuples = acc_as ++ a :: others →
    Forall (λ a', ∃ j, Job a' sys md aux rd = Return j) acc_as →
    jobs_loop Job
      {| batchsend.params := params; _syspar_keys := sys; _modpar_keys := md;
         _auxpar_keys := aux; cmd_opt := cmd; slurm_opt := slurm; _redef := rd;
         jobs := None; batchsend.storage := None; __dict__ := [] |}
      (keys params) tuples acc = Raise e).
  { intros tuples acc acc_as. revert tuples acc.
    induction acc_as as [|a' acc_as IH]; intros [|i tuples] acc Heq Hall; try done.
    - simpl in Heq. injection Heq as Hi _. cbn [jobs_loop].
      cbn [_syspar_keys _modpar_keys _auxpar_keys _redef]. by rewrite Hi, Ha.
    - simpl in Heq. injection Heq as Hi Hrest.
      apply Forall_cons in Hall as [[j Hj] Hall]. cbn [jobs_loop].
      cbn [_syspar_keys _modpar_keys _auxpar_keys _redef]. rewrite Hi, Hj.
      cbn [bind_result]. by apply IH. }
  by rewrite (Hloop _ [] accepted Has Hacc).
Qed.

Lemma init_raises_first_rejection_example :
  __init__ (λ (a : pydict pyvalues.pyval) _ _ _ (_ : unit),
              match get a "dW" with
              | Some (pyvalues.PyFloat _ 2 _) => Raise ValueError
              | _ => Return a
              end)
    examples.params_L_dW ["L"] ["dW"] [] "store" [] [] () examples.empty_world
  = (Raise ValueError, examples.empty_world).
Proof.
  apply (init_raises_first_rejection _ examples.params_L_dW ["L"] ["dW"] []
           "store" [] [] () examples.empty_world
           [[("L", pyvalues.PyInt 8); ("dW", examples.f1_0)]]
           [("L", pyvalues.PyInt 8); ("dW", examples.f2_0)]
           [[("L", pyvalues.PyInt 10); ("dW", examples.f1_0)];
            [("L", pyvalues.PyInt 10); ("dW", examples.f2_0)]]).
  - reflexivity.
  - repeat constructor. by eexists.
  - reflexivity.
Defined.

(** ** [BatchSender]: the folders and the runner *)

Module folders_more.
Import builtins batchsend vocabulary vocabulary2 os os_facts folders_facts completion.







(** A path that is a directory names a location that holds one. *)
Lemma path_isdir_locate w p :
  path_isdir w p = true →
  ∃ loc, locate w p = Return loc ∧ is_dir_at (files w) loc = true.
Proof.
  unfold path_isdir, locate. destruct p as [|a p]; [done|].
  destruct (walk _ _ _) as [loc|e]; [|done]. by exists loc.
Qed.

Lemma locate_mono w w' p loc :
  files w ⊆ files w' → cwd w' = cwd w →
  locate w p = Return loc → locate w' p = Return loc.
Proof.
  unfold locate, start. intros Hs ->. by apply walk_mono.
Qed.

(** Below the storage root, a subdirectory that is a directory. *)
Lemma sub_path_isdir w storage subdir loc :
  storage ≠ [] → subdir ∈ subdirs_list →
  locate w storage = Return loc →
  path_isdir w (sub_path storage subdir) = true →
  files w !! (loc ++ [subdir]) = Some Dir.
Proof.
  intros Hne Hin Hloc Hdir. unfold locate in Hloc. unfold path_isdir in Hdir.
  destruct (sub_path storage subdir) as [|a q] eqn:Hq; [done|].
  rewrite <- Hq in *. rewrite components_sub_path, start_sub_path in Hdir by done.
  rewrite walk_app, Hloc in Hdir. cbn [bind_result walk] in Hdir.
  destruct (check_dir (files w) loc); [|done]. cbn [bind_result] in Hdir.
  rewrite step_subdir, is_dir_at_snoc in Hdir by done.
  by apply bool_decide_eq_true in Hdir.
Qed.



End folders_more.

Import builtins batchsend vocabulary vocabulary2 os os_facts folders_facts completion.
Import folders_more runner_facts batchsend_facts.



(** In that run the folder [tmp] is made before [log] fails, and it
    stays. *)
Lemma prepare_folders_leaves_tmp :
  files examples2.blocked_world !! ["store"; "tmp"] = None
  ∧ prepare_folders examples.sender_L_dW "store" examples2.blocked_world
    = (Raise FileExistsError,
       {| files := {[ ["store"] := Dir; ["store"; "log"] := File;
                      ["store"; "tmp"] := Dir ]};
          cwd := [] |}).
Proof. split; vm_compute; reflexivity. Qed.

(** X6: [prepare_folders] completes exactly when the storage root is a
    directory or [os.mkdir] makes it one, and under none of the four names
    lies a regular file. *)
Theorem prepare_folders_completes_exactly_when {V J R}
    (self : BatchSender V J R) (storage : pystr) (w : world) :
  (∃ self' w', prepare_folders self storage w = (Return self', w'))
  ↔ ∃ w1 loc,
      ensure_dir storage w = (Return (), w1)
      ∧ locate w1 storage = Return loc
      ∧ ∀ subdir, subdir ∈ subdirs_list →
                  files w1 !! (loc ++ [subdir]) ≠ Some File.
Proof.
  split.
  - intros (self' & w' & H).
    pose proof H as (_ & _ & _ & Hall & _)%prepare_folders_Return.
    unfold prepare_folders in H.
    destruct (ensure_dir storage w) as [[[]|e] w1] eqn:He; [|done].
    destruct (subdirs_loop _ _ _ w1) as [[d|e] w2] eqn:Hl; [|done].
    injection H as _ <-.
    pose proof He as (_ & _ & Hroot)%ensure_dir_Return.
    assert (Hne : storage ≠ []) by (by intros ->).
    apply path_isdir_locate in Hroot as (loc & Hloc & _).
    exists w1, loc. split_and!; [done|done|].
    intros subdir Hin Hfile.
    pose proof Hl as (Hs & Hc & _)%subdirs_loop_Return.
    rewrite Forall_forall in Hall.
    pose proof (sub_path_isdir w2 storage subdir loc Hne Hin
                  (locate_mono _ _ _ _ Hs Hc Hloc) (Hall _ Hin)) as Hd.
    pose proof (lookup_weaken _ _ _ _ Hfile Hs). congruence.
  - intros (w1 & loc & He & Hloc & Hfile).
    by apply (prepare_folders_completes self storage w w1 loc).
Qed.

(** X4: Where [__init__] returns, the sender holds one job per assignment, in
    their order, the storage root, and the paths of the four folders under
    their names; the root is a directory and what existed still exists. *)
Theorem init_returns_sender {V J R}
    (Job : pydict V → list pystr → list pystr → list pystr → R → result J)
    (params : pydict (list V)) (sys md aux : list pystr) (storage : pystr)
    (cmd slurm : list pystr) (rd : R) (w : world)
    (self' : BatchSender V J R) (w' : world) :
  __init__ Job params sys md aux storage cmd slurm rd w = (Return self', w') →
  ∃ js,
    Forall2 (λ a j, Job a sys md aux rd = Return j) (assignments params) js
    ∧ length js = value_count params
    ∧ self'
      = {| batchsend.params := params; _syspar_keys := sys;
           _modpar_keys := md; _auxpar_keys := aux; cmd_opt := cmd;
           slurm_opt := slurm; _redef := rd; jobs := Some js;
           batchsend.storage := Some storage;
           __dict__ := [("tmp", storage ++ "/tmp/"); ("log", storage ++ "/log/");
                        ("results", storage ++ "/results/");
                        ("log_deps", storage ++ "/log_deps/")] |}
    ∧ path_isdir w' storage = true
    ∧ Forall (λ p, path_isdir w' p = true) (values (__dict__ self'))
    ∧ files w ⊆ files w'.
Proof.
  unfold __init__. destruct (prepare_jobs _ _) as [self1|e] eqn:Hj; [|done].
  apply prepare_jobs_Return in Hj as (js & -> & Hall). intros H.
  apply prepare_folders_Return in H as (Hs & _ & Hroot & Hsub & ->).
  exists js. split_and!; try done.
  - apply Forall2_length in Hall. by rewrite <- Hall, assignments_length.
  - revert Hsub. unfold subdirs_list. rewrite !Forall_cons.
    intros (H1 & H2 & H3 & H4 & _).
    change (Forall (λ p, path_isdir w' p = true)
              [sub_path storage "tmp"; sub_path storage "log";
               sub_path storage "results"; sub_path storage "log_deps"]).
    by repeat constructor.
Qed.

Lemma init_returns_sender_example :
  ∃ js,
    Forall2 (λ a j, examples.keep_items a ["L"] ["dW"] [] () = Return j)
      (assignments examples.params_L_dW) js
    ∧ length js = value_count examples.params_L_dW
    ∧ (__init__ examples.keep_items examples.params_L_dW ["L"] ["dW"] []
         "store" [] [] () examples.empty_world).1
      = Return
        {| batchsend.params := examples.params_L_dW; _syspar_keys := ["L"];
           _modpar_keys := ["dW"]; _auxpar_keys := []; cmd_opt := [];
           slurm_opt := []; _redef := (); jobs := Some js;
           batchsend.storage := Some "store";
           __dict__ := [("tmp", "store/tmp/"); ("log", "store/log/");
                        ("results", "store/results/");
                        ("log_deps", "store/log_deps/")] |}.
Proof.
  destruct (__init__ examples.keep_items examples.params_L_dW ["L"] ["dW"] []
              "store" [] [] () examples.empty_world) as [r w'] eqn:H.
  destruct r as [self'|e]; [|by vm_compute in H].
  destruct (init_returns_sender _ _ _ _ _ _ _ _ _ _ _ _ H)
    as (js & Hall & Hlen & -> & _).
  by exists js.
Defined.

(** X7: A sender that [__init__] has returned has its jobs: [run_jobs] on it
    goes through the loop over them, one job per assignment, whatever
    [SubmittedScript] is. *)
Theorem init_then_run_jobs {V J R M Script W}
    (Job : pydict V → list pystr → list pystr → list pystr → R → result J)
    (params : pydict (list V)) (sys md aux : list pystr) (storage : pystr)
    (cmd slurm : list pystr) (rd : R) (w : world)
    (self' : BatchSender V J R) (w' : world) :
  __init__ Job params sys md aux storage cmd slurm rd w = (Return self', w') →
  ∃ js,
    Forall2 (λ a j, Job a sys md aux rd = Return j) (assignments params) js
    ∧ ∀ (SubmittedScript :
           J → BatchSender V J R → M → run_opts → W → result Script * W)
        (mode : M) (opts : run_opts) (o : W),
        run_jobs SubmittedScript self' mode opts o
        = run_loop SubmittedScript self' mode opts js o.
Proof.
  unfold __init__. destruct (prepare_jobs _ _) as [self1|e] eqn:Hj; [|done].
  apply prepare_jobs_Return in Hj as (js & -> & Hall). intros H.
  apply prepare_folders_Return in H as (_ & _ & _ & _ & ->).
  exists js. split; [done|]. intros S mode opts o. done.
Qed.

Lemma init_then_run_jobs_example :
  ∃ js,
    Forall2 (λ a j, examples.keep_items a ["L"] ["dW"] [] () = Return j)
      (assignments examples.params_L_dW) js
    ∧ ∀ (SubmittedScript :
           pydict pyvalues.pyval → BatchSender pyvalues.pyval _ unit → unit →
           run_opts → nat → result unit * nat)
        (mode : unit) (opts : run_opts) (o : nat),
        run_jobs SubmittedScript
          (update_dict
             (set_storage
                (set_jobs (examples.sender examples.params_L_dW ["L"] ["dW"] [] ())
                   (assignments examples.params_L_dW)) "store")
             (subdirs_of "store" subdirs_list [])) mode opts o
        = run_loop SubmittedScript
            (update_dict
               (set_storage
                  (set_jobs (examples.sender examples.params_L_dW ["L"] ["dW"] [] ())
                     (assignments examples.params_L_dW)) "store")
               (subdirs_of "store" subdirs_list [])) mode opts js o.
Proof.
  apply (init_then_run_jobs (M := unit) (Script := unit) (W := nat)
           examples.keep_items examples.params_L_dW ["L"] ["dW"] []
           "store" [] [] () examples.empty_world _
           (prepare_folders
              (set_jobs (examples.sender examples.params_L_dW ["L"] ["dW"] [] ())
                 (assignments examples.params_L_dW)) "store"
              examples.empty_world).2).
  vm_compute. reflexivity.
Defined.

(** X8: [run_jobs] ends with the first job whose [SubmittedScript] raises:
    the jobs before it have been dispatched, the ones behind it are not, and
    the exception is the one that [run_jobs] raises. *)
Theorem run_jobs_stops_at_first_exception {V J R M Script W}
    (SubmittedScript :
       J → BatchSender V J R → M → run_opts → W → result Script * W)
    (self : BatchSender V J R) (mode : M) (opts : run_opts)
    (before : list J) (job : J) (behind : list J) (w w1 w2 : W) (e : exn) :
  jobs self = Some (before ++ job :: behind) →
  run_loop SubmittedScript self mode opts before w = (Return (), w1) →
  SubmittedScript job self mode opts w1 = (Raise e, w2) →
  run_jobs SubmittedScript self mode opts w = (Raise e, w2).
Proof.
  intros Hjs Hbefore Hjob. unfold run_jobs. rewrite Hjs, run_loop_app, Hbefore.
  by apply run_loop_Raise.
Qed.

Lemma run_jobs_stops_at_first_exception_example :
  run_jobs (V := unit) (R := unit)
    (λ (job : nat) _ (_ : unit) _ (log : list nat),
       if bool_decide (job = 2) then (Raise ValueError, log)
       else (Return (), log ++ [job]))
    (set_jobs (examples.sender [] [] [] [] ()) [1; 2; 3]) () default_opts []
  = (Raise ValueError, [1]).
Proof.
  by apply (run_jobs_stops_at_first_exception _ _ _ _ [1] 2 [3] [] [1] [1]).
Defined.

(** ** Occurrences of one string in another *)

Module occurrence_facts.
Import Py Py2 PyFacts.
Implicit Types (s t sub pre a b : pystr).

Lemma startswith_prefix s pre :
  startswith s pre = true ↔ ∃ t, s = pre ++ t.
Proof.
  revert s. induction pre as [|c pre IH]; intros s.
  - rewrite startswith_nil. split; [by exists s|done].
  - destruct s as [|d s]; [split; [done|by intros [? ?]]|].
    rewrite startswith_cons, andb_true_iff, bool_decide_eq_true, IH. split.
    + intros [-> [t ->]]. by exists t.
    + intros [t [= -> ->]]. split; [done|by exists t].
Qed.

Lemma startswith_drop s pre :
  startswith s pre = true → s = pre ++ drop (length pre) s.
Proof. intros [t ->]%startswith_prefix. by rewrite drop_app_length. Qed.

(** [find] gives the first index at which [sub] starts. *)
Lemma find_Some s sub i :
  find s sub = Some i ↔
  startswith (drop i s) sub = true ∧ i ≤ length s
  ∧ ∀ j, j < i → startswith (drop j s) sub = false.
Proof.
  revert i. induction s as [|c s IH]; intros i.
  - rewrite find_nil. destruct (startswith [] sub) eqn:Hp.
    + split.
      * intros [= <-]. split_and!; [done|done|lia].
      * intros (_ & Hi & _). simpl in Hi. f_equal. lia.
    + split; [done|]. intros (Hd & _ & _). rewrite drop_nil in Hd. congruence.
  - rewrite find_cons. destruct (startswith (c :: s) sub) eqn:Hp.
    + split.
      * intros [= <-]. split_and!; [done|simpl; lia|lia].
      * intros (_ & _ & Hj). destruct i as [|i]; [done|].
        specialize (Hj 0 ltac:(lia)). rewrite drop_0 in Hj. congruence.
    + destruct i as [|i].
      * split; [by destruct (find s sub)|]. intros (Hd & _). rewrite drop_0 in Hd. congruence.
      * trans (find s sub = Some i).
        { destruct (find s sub); simpl; split; congruence. }
        rewrite IH. change (drop (S i) (c :: s)) with (drop i s).
        change (length (c :: s)) with (S (length s)). split.
        -- intros (? & ? & Hj). split_and!; [done|lia|].
           intros [|j] ?; [by rewrite drop_0|]. apply Hj. lia.
        -- intros (? & ? & Hj). split_and!; [done|lia|].
           intros j ?. apply (Hj (S j)). lia.
Qed.

Lemma find_split s sub i :
  find s sub = Some i → s = take i s ++ sub ++ drop (i + length sub) s.
Proof.
  intros (Hd & _ & _)%find_Some. apply startswith_drop in Hd.
  rewrite drop_drop in Hd. rewrite <- Hd. by rewrite take_drop.
Qed.

Lemma find_None s sub :
  find s sub = None ↔ ∀ a b, s ≠ a ++ sub ++ b.
Proof.
  split.
  - intros Hf a b ->.
    assert (∀ a, find (a ++ sub ++ b) sub ≠ None) as H; [|by apply (H a)].
    clear. intros a. induction a as [|c a IH].
    + change ([] ++ sub ++ b) with (sub ++ b).
      by rewrite (find_startswith _ _ (startswith_app sub b)).
    + rewrite <- app_comm_cons, find_cons. destruct (startswith _ sub); [done|].
      by destruct (find (a ++ sub ++ b) sub).
  - intros H. destruct (find s sub) as [i|] eqn:Hf; [|done].
    apply find_split in Hf. by apply H in Hf.
Qed.

Lemma find_app_first a sub b :
  (∀ j, j < length a → startswith (drop j (a ++ sub ++ b)) sub = false) →
  find (a ++ sub ++ b) sub = Some (length a).
Proof.
  intros H. apply find_Some. split_and!; [| |done].
  - rewrite drop_app_length. apply startswith_app.
  - rewrite length_app. lia.
Qed.

Lemma contains_occurs s sub :
  contains s sub = true ↔ ∃ a b, s = a ++ sub ++ b.
Proof.
  unfold contains. destruct (find s sub) as [i|] eqn:Hf.
  - split; [|done]. intros _. apply find_split in Hf. eauto.
  - split; [done|]. intros (a & b & Hs). by eapply find_None in Hf.
Qed.

End occurrence_facts.

(** ** [_extract_disorder], mode 0 *)

Module mode0_facts.
Import Py Py2 PyFacts strings_facts utils_facts occurrence_facts vocabulary.
Implicit Types (s t k x : pystr).

Lemma token_split s :
  s = token s ++ drop (length (token s)) s
  ∧ plain (token s) ∧ at_boundary (drop (length (token s)) s).
Proof.
  unfold plain, at_boundary. induction s as [|a s (IH1 & IH2 & IH3)]; cbn [token].
  - split_and!; [done|apply not_elem_of_nil|by left].
  - case_bool_decide as Ha.
    + subst a. split_and!; [done|apply not_elem_of_nil|right; by eexists].
    + cbn [length drop app]. split_and!; [by rewrite <- IH1| |done].
      apply not_elem_of_cons. split; [congruence|done].
Qed.

Lemma lstrip_underscores n x :
  lstrip (replicate n "_"%char ++ x) "_" = lstrip x "_".
Proof.
  induction n as [|n IH]; [done|]. cbn [replicate app lstrip].
  rewrite bool_decide_eq_true_2; [done|]. apply list_elem_of_singleton. done.
Qed.

Lemma rstrip_underscores x m :
  rstrip (x ++ replicate m "_"%char) "_" = rstrip x "_".
Proof.
  unfold rstrip. by rewrite reverse_app, reverse_replicate, lstrip_underscores.
Qed.

Lemma strip_underscores_behind k m :
  rstrip (lstrip (k ++ replicate m "_"%char) "_") "_" = rstrip (lstrip k "_") "_".
Proof.
  induction k as [|a k IH].
  - cbn [app]. rewrite <- (app_nil_r (replicate m _)). by rewrite lstrip_underscores.
  - cbn [app lstrip]. case_bool_decide; [done|].
    by rewrite app_comm_cons, rstrip_underscores.
Qed.

Lemma delimited_underscores n k m :
  delimited (replicate n "_"%char ++ k ++ replicate m "_"%char) = delimited k.
Proof.
  unfold delimited. by rewrite lstrip_underscores, strip_underscores_behind.
Qed.

Lemma count_once_behind c sub' s i :
  count_loop c sub' s = 1 → find s (c :: sub') = Some i →
  find (drop (i + length (c :: sub')) s) (c :: sub') = None.
Proof.
  intros Hc Hf. rewrite count_loop_unfold, Hf in Hc. injection Hc as Hc.
  rewrite count_loop_unfold in Hc. by destruct (find (drop _ s) _).
Qed.

End mode0_facts.

Import Py Py2 PyFacts strings_facts utils_facts occurrence_facts vocabulary.
Import mode0_facts.

(** X9: The underscores around the key do not count: with any number of
    them before and behind it, [_extract_disorder] does what it does with
    the bare key. *)
Theorem extract_disorder_key_underscores {F} (np_float : pystr → option F)
    (s k : pystr) (n m : nat) :
  utils._extract_disorder np_float s
    (replicate n "_"%char ++ k ++ replicate m "_"%char)
  = utils._extract_disorder np_float s k.
Proof.
  rewrite !extract_disorder_split.
  by rewrite lstrip_underscores, strip_underscores_behind.
Qed.

(** X10: Where [_extract_disorder] returns, the string behind an underscore
    falls into four parts: what lies before the delimited key, the key, the
    token that is the number returned, and what lies behind the token; the
    rest returned is the first part without its leading underscores,
    followed by the last one.  The token holds no underscore, and the last
    part is empty or starts with one. *)
Theorem extract_disorder_reassembles {F} (np_float : pystr → option F)
    (s k rest : pystr) (d : F) :
  utils._extract_disorder np_float s k = Return (rest, d) →
  ∃ a tok b,
    "_" ++ s = a ++ delimited k ++ tok ++ b
    ∧ rest = Py.lstrip a "_" ++ b
    ∧ plain tok ∧ at_boundary b
    ∧ np_float tok = Some d
    ∧ Py.find ("_" ++ s) (delimited k) = Some (length a)
    ∧ Py.find (tok ++ b) (delimited k) = None.
Proof.
  intros Hret.
  destruct (decide (Py.count ("_" ++ s) (delimited k) = 1)) as [Hc|Hc];
    [|by rewrite extract_disorder_not_once in Hret].
  destruct (count_loop_once _ _ _ Hc) as [i Hf].
  rewrite (extract_disorder_once np_float s k i Hc Hf) in Hret.
  unfold finish in Hret.
  destruct (np_float (token (behind s k i))) as [d'|] eqn:Hd; [|done].
  injection Hret as <- <-.
  destruct (token_split (behind s k i)) as (Hsplit & Hplain & Hb).
  pose proof (find_split _ _ _ Hf) as Hs.
  pose proof (find_bound _ _ _ Hf) as Hbound.
  exists (take i ("_" ++ s)), (token (behind s k i)),
    (drop (length (token (behind s k i))) (behind s k i)).
  rewrite <- Hsplit. split_and!; try done.
  - rewrite length_take_le by lia. exact Hf.
  - exact (count_once_behind "_"%char (Py.rstrip (Py.lstrip k "_") "_" ++ "_")
             ("_" ++ s) i Hc Hf).
Qed.

Lemma extract_disorder_reassembles_example :
  ∃ a tok b,
    "_" ++ "L_8_dW_1.0_W_2" = a ++ delimited "dW" ++ tok ++ b
    ∧ "L_8_W_2" = Py.lstrip a "_" ++ b
    ∧ plain tok ∧ at_boundary b
    ∧ pyvalues.float_of_decimal tok = Some 1%Q
    ∧ Py.find ("_" ++ "L_8_dW_1.0_W_2") (delimited "dW") = Some (length a)
    ∧ Py.find (tok ++ b) (delimited "dW") = None.
Proof.
  apply (extract_disorder_reassembles pyvalues.float_of_decimal
           "L_8_dW_1.0_W_2" "dW" "L_8_W_2" 1%Q).
  vm_compute. reflexivity.
Defined.

(** ** [delete_keys_from_dict] *)

Module delete_facts.
Import builtins Py2 utils2 vocabulary2.

Section facts.
Context {A : Type}.
Implicit Types (D d : pydict (pyobj A)) (o : pyobj A) (ks : list pystr).

(** Induction on a value, with the values of a mapping as the smaller
    ones. *)
Lemma pyobj_nested_ind (P : pyobj A → Prop) :
  (∀ a, P (Atom a)) →
  (∀ d, Forall (λ kv, P kv.2) d → P (Mapping d)) →
  ∀ o, P o.
Proof.
  intros Ha Hm. fix IH 1. intros [a|d]; [apply Ha|]. apply Hm.
  induction d as [|[k v] d IHd]; constructor; [apply IH|apply IHd].
Qed.

Lemma map_in_ext {X Y} (l : list X) (f : ∀ x, x ∈ l → Y) (g : X → Y) :
  (∀ x H, f x H = g x) → map_in l f = g <$> l.
Proof.
  induction l as [|x l IH]; intros Hfg; [done|]. cbn [map_in fmap list_fmap].
  rewrite Hfg. f_equal. apply IH. intros y Hy. apply Hfg.
Qed.

Lemma get_None {V} (d : pydict V) k : get d k = None ↔ k ∉ keys d.
Proof.
  unfold keys. induction d as [|[k' v] d IH]; cbn [get fmap list_fmap fst].
  - split; [intros _; apply not_elem_of_nil|done].
  - rewrite not_elem_of_cons. case_bool_decide as Hk.
    + split; [done|]. by intros [? _].
    + rewrite IH. split; [by intros ?|by intros [_ ?]].
Qed.

Lemma del_step {V} (d : pydict V) key :
  match delitem d key with Some d' => d' | None => d end
  = filter (λ kv, kv.1 ≠ key) d.
Proof.
  unfold delitem. destruct (get d key) eqn:Hg; [done|].
  apply get_None in Hg. unfold keys in Hg. symmetry.
  induction d as [|[k v] d IH]; [done|].
  apply not_elem_of_cons in Hg as [Hk Hg]. simpl in Hk.
  rewrite filter_cons_True by (simpl; congruence). f_equal. by apply IH.
Qed.

(** The first loop of [delete_keys_from_dict] leaves the items whose key
    is none of [keys], in their order. *)
Lemma del_loop_filter {V} (d : pydict V) ks :
  del_loop d ks = filter (λ kv, kv.1 ∉ ks) d.
Proof.
  unfold del_loop. revert d. induction ks as [|k ks IH]; intros d; cbn [fold_left].
  - symmetry. induction d as [|kv d IHd]; [done|].
    rewrite filter_cons_True by apply not_elem_of_nil. by f_equal.
  - rewrite del_step, IH. clear IH.
    induction d as [|kv d IHd]; [done|].
    destruct (decide (kv.1 = k)) as [Hk|Hk].
    + rewrite filter_cons_False by (intros H; by apply H).
      rewrite filter_cons_False; [done|]. intros H. apply H.
      apply elem_of_cons. by left.
    + rewrite (filter_cons_True (λ kv, kv.1 ≠ k)) by done.
      destruct (decide (kv.1 ∈ ks)) as [Hin|Hin].
      * rewrite !filter_cons_False; [done| |].
        -- intros H. apply H. apply elem_of_cons. by right.
        -- intros H. by apply H.
      * rewrite !filter_cons_True; [by f_equal| |done].
        intros [?|?]%elem_of_cons; done.
Qed.

(** [delete_keys_from_dict] in one equation. *)
Lemma delete_keys_unfold D ks :
  delete_keys_from_dict D ks
  = (λ kv, (kv.1, pruned ks kv.2)) <$> filter (λ kv, kv.1 ∉ ks) D.
Proof.
  rewrite <- del_loop_filter. funelim (delete_keys_from_dict D ks).
  apply map_in_ext. intros [k [a|d]] Hin; done.
Qed.

Lemma pruned_Mapping ks d :
  pruned ks (Mapping d)
  = Mapping ((λ kv, (kv.1, pruned ks kv.2)) <$> filter (λ kv, kv.1 ∉ ks) d).
Proof. cbn [pruned]. by rewrite delete_keys_unfold. Qed.

Lemma get_filter {V} (d : pydict V) ks k :
  get (filter (λ kv, kv.1 ∉ ks) d) k = if decide (k ∈ ks) then None else get d k.
Proof.
  induction d as [|[k' v] d IH]; [by destruct (decide _)|].
  destruct (decide (k' ∈ ks)) as [Hk'|Hk'].
  - rewrite filter_cons_False by (intros H; by apply H). rewrite IH. cbn [get].
    case_bool_decide as Hk; [|done]. subst k'. by destruct (decide (k ∈ ks)).
  - rewrite filter_cons_True by exact Hk'. cbn [get].
    case_bool_decide as Hk; [|done]. subst k'. by destruct (decide (k ∈ ks)).
Qed.

Lemma get_fmap {V W} (f : V → W) (d : pydict V) k :
  get ((λ kv, (kv.1, f kv.2)) <$> d) k = f <$> get d k.
Proof.
  induction d as [|[k' v] d IH]; [done|]. cbn [fmap list_fmap get fst snd].
  by case_bool_decide.
Qed.

Lemma get_delete_keys D ks k :
  get (delete_keys_from_dict D ks) k
  = if decide (k ∈ ks) then None else pruned ks <$> get D k.
Proof.
  rewrite delete_keys_unfold, get_fmap, get_filter.
  by destruct (decide (k ∈ ks)).
Qed.

Lemma pruned_nil o : pruned [] o = o.
Proof.
  induction o as [a|d IH] using pyobj_nested_ind; [done|].
  rewrite pruned_Mapping. f_equal.
  induction IH as [|[k v] d Hv _ IHd]; [done|].
  rewrite filter_cons_True by apply not_elem_of_nil.
  cbn [fmap list_fmap fst snd]. simpl in Hv. rewrite Hv. f_equal. apply IHd.
Qed.

Lemma pruned_pruned ks1 ks2 o :
  pruned ks2 (pruned ks1 o) = pruned (ks1 ++ ks2) o.
Proof.
  induction o as [a|d IH] using pyobj_nested_ind; [done|].
  rewrite !pruned_Mapping. f_equal.
  induction IH as [|[k v] d Hv _ IHd]; [done|]. simpl in Hv.
  destruct (decide (k ∈ ks1)) as [H1|H1].
  - rewrite (filter_cons_False (λ kv, kv.1 ∉ ks1)) by (intros H; by apply H).
    rewrite (filter_cons_False (λ kv, kv.1 ∉ ks1 ++ ks2)); [done|].
    intros H. apply H. apply elem_of_app. by left.
  - rewrite (filter_cons_True (λ kv, kv.1 ∉ ks1)) by done.
    cbn [fmap list_fmap fst snd].
    destruct (decide (k ∈ ks2)) as [H2|H2].
    + rewrite (filter_cons_False (λ kv, kv.1 ∉ ks2)) by (intros H; by apply H).
      rewrite (filter_cons_False (λ kv, kv.1 ∉ ks1 ++ ks2)); [done|].
      intros H. apply H. apply elem_of_app. by right.
    + rewrite (filter_cons_True (λ kv, kv.1 ∉ ks2)) by done.
      rewrite (filter_cons_True (λ kv, kv.1 ∉ ks1 ++ ks2)).
      * cbn [fmap list_fmap fst snd]. rewrite Hv. f_equal. apply IHd.
      * by intros [?|?]%elem_of_app.
Qed.

Lemma pruned_same_keys ks1 ks2 o :
  (∀ k, k ∈ ks1 ↔ k ∈ ks2) → pruned ks1 o = pruned ks2 o.
Proof.
  intros Hks. induction o as [a|d IH] using pyobj_nested_ind; [done|].
  rewrite !pruned_Mapping. f_equal.
  induction IH as [|[k v] d Hv _ IHd]; [done|]. simpl in Hv.
  destruct (decide (k ∈ ks1)) as [H1|H1].
  - rewrite !filter_cons_False; [done| |].
    + intros H. apply H. by apply Hks.
    + intros H. by apply H.
  - rewrite !filter_cons_True; [|by rewrite <- Hks|done].
    cbn [fmap list_fmap fst snd]. rewrite Hv. f_equal. apply IHd.
Qed.

End facts.
End delete_facts.

Import builtins Py2 utils2 vocabulary2 delete_facts.

(** X14: After [delete_keys_from_dict] no key of [keys] is left, neither in
    the dictionary nor in a mapping inside it, at any depth; and no key has
    appeared: the keys left are keys that were there, in their order. *)
Theorem delete_keys_removes_everywhere {A} (dictionary : pydict (pyobj A))
    (keys : list pystr) :
  Forall (λ k, k ∉ keys)
    (keys_within (Mapping (delete_keys_from_dict dictionary keys)))
  ∧ keys_within (Mapping (delete_keys_from_dict dictionary keys))
    `sublist_of` keys_within (Mapping dictionary).
Proof.
  change (Mapping (delete_keys_from_dict dictionary keys))
    with (pruned keys (Mapping dictionary)).
  generalize (Mapping dictionary). clear dictionary. intros o. rename keys into ks.
  induction o as [a|d IH] using pyobj_nested_ind; [by split; [constructor|]|].
  rewrite pruned_Mapping. cbn [keys_within].
  induction IH as [|[k v] d [Hv1 Hv2] _ [IHd1 IHd2]]; [by split; [constructor|]|].
  simpl in Hv1, Hv2. rewrite (bind_cons _ (k, v)). cbn [fst snd].
  destruct (decide (k ∈ ks)) as [Hk|Hk].
  - rewrite filter_cons_False by (intros H; by apply H). split; [done|].
    by apply sublist_inserts_l.
  - rewrite filter_cons_True by done. cbn [fmap list_fmap]. rewrite bind_cons.
    cbn [fst snd]. split.
    + constructor; [done|]. by apply Forall_app.
    + by apply (sublist_app (_ :: _) (_ :: _)); [apply sublist_skip|].
Qed.

(** X15: What a chain of lookups [d[k1][k2]...[kn]] finds after
    [delete_keys_from_dict]: nothing where one of the keys is among the
    deleted ones; the value it found before, with the keys deleted inside
    it where it is a mapping and untouched where it is none, otherwise. *)
Theorem delete_keys_lookup {A} (dictionary : pydict (pyobj A))
    (keys path : list pystr) :
  path_get (Mapping (delete_keys_from_dict dictionary keys)) path
  = if decide (Exists (λ k, k ∈ keys) path) then None
    else pruned keys <$> path_get (Mapping dictionary) path.
Proof.
  change (Mapping (delete_keys_from_dict dictionary keys))
    with (pruned keys (Mapping dictionary)).
  generalize (Mapping dictionary). clear dictionary. rename keys into ks.
  induction path as [|k path IH]; intros o.
  - cbn [path_get]. destruct (decide _) as [He|He]; [by apply Exists_nil in He|done].
  - destruct o as [a|d].
    + cbn [pruned path_get]. by destruct (decide (Exists _ (k :: path))).
    + cbn [pruned path_get]. rewrite get_delete_keys.
      destruct (decide (k ∈ ks)) as [Hk|Hk].
      * destruct (decide (Exists _ (k :: path))) as [He|He]; [done|].
        destruct He. by left.
      * destruct (get d k) as [v|]; cbn [fmap option_fmap option_map mbind option_bind].
        -- rewrite IH. destruct (decide (Exists _ path)) as [He|He];
             destruct (decide (Exists _ (k :: path))) as [He'|He']; try done.
           ++ destruct He'. by right.
           ++ by apply Exists_cons in He' as [?|?].
        -- by destruct (decide (Exists _ (k :: path))).
Qed.

(** X16: With no key to delete, [delete_keys_from_dict] changes nothing. *)
Theorem delete_keys_none {A} (dictionary : pydict (pyobj A)) :
  delete_keys_from_dict dictionary [] = dictionary.
Proof.
  pose proof (pruned_nil (Mapping dictionary)) as H. by injection H.
Qed.

(** X17: Two calls in a row do what one call with both key lists does; so a
    second call with the same keys changes nothing. *)
Theorem delete_keys_twice {A} (dictionary : pydict (pyobj A))
    (keys1 keys2 : list pystr) :
  delete_keys_from_dict (delete_keys_from_dict dictionary keys1) keys2
  = delete_keys_from_dict dictionary (keys1 ++ keys2)
  ∧ delete_keys_from_dict (delete_keys_from_dict dictionary keys1) keys1
    = delete_keys_from_dict dictionary keys1.
Proof.
  pose proof (pruned_pruned keys1 keys2 (Mapping dictionary)) as H12.
  pose proof (pruned_pruned keys1 keys1 (Mapping dictionary)) as H11.
  rewrite (pruned_same_keys (keys1 ++ keys1) keys1) in H11.
  - cbn [pruned] in H12, H11. by simplify_eq.
  - intros k. rewrite elem_of_app. tauto.
Qed.

(** X18: The result depends on which keys are listed, not on their order or on
    how often one is listed. *)
Theorem delete_keys_as_a_set {A} (dictionary : pydict (pyobj A))
    (keys1 keys2 : list pystr) :
  (∀ k, k ∈ keys1 ↔ k ∈ keys2) →
  delete_keys_from_dict dictionary keys1 = delete_keys_from_dict dictionary keys2.
Proof.
  intros H. pose proof (pruned_same_keys keys1 keys2 (Mapping dictionary) H) as Hp.
  by injection Hp.
Qed.

Lemma delete_keys_as_a_set_example :
  delete_keys_from_dict
    [("a", Atom 1); ("b", Mapping [("a", Atom 2); ("c", Atom 3)])] ["c"; "a"; "c"]
  = delete_keys_from_dict
      [("a", Atom 1); ("b", Mapping [("a", Atom 2); ("c", Atom 3)])] ["a"; "c"].
Proof.
  apply (delete_keys_as_a_set
           [("a", Atom 1); ("b", Mapping [("a", Atom 2); ("c", Atom 3)])]
           ["c"; "a"; "c"] ["a"; "c"]).
  intros k. rewrite !elem_of_cons. tauto.
Defined.

(** ** [_extract_disorder], mode 1 *)

Module mode1_facts.
Import builtins Py Py2 PyFacts occurrence_facts utils2 vocabulary2.
Implicit Types (s t x a b : pystr).

Lemma replace_loop_unfold c old' new s :
  replace_loop c old' new s =
  match find s (c :: old') with
  | Some i => take i s ++ new ++ replace_loop c old' new (drop (i + length (c :: old')) s)
  | None => s
  end.
Proof.
  funelim (replace_loop c old' new s).
  - by rewrite Hf.
  - by rewrite e.
Qed.

Lemma replace_unfold s old new :
  old ≠ [] →
  replace s old new =
  match find s old with
  | Some i => take i s ++ new ++ replace (drop (i + length old) s) old new
  | None => s
  end.
Proof.
  destruct old as [|c old']; [done|]. intros _. unfold replace.
  by rewrite replace_loop_unfold.
Qed.

Lemma getitem_nonneg {A} (l : list A) i (x : A) :
  l !! i = Some x → getitem l (Z.of_nat i) = Done x.
Proof.
  intros Hl. pose proof (lookup_lt_Some _ _ _ Hl) as Hlt. unfold getitem.
  assert (H0 : (Z.of_nat i <? 0)%Z = false) by (apply Z.ltb_ge; lia).
  assert (H1 : (Z.of_nat (length l) <=? Z.of_nat i)%Z = false)
    by (apply Z.leb_gt; lia).
  rewrite !H0, H1. cbn [orb]. by rewrite Nat2Z.id, Hl.
Qed.

Lemma getitem_short {A} (l : list A) i :
  length l ≤ i → getitem l (Z.of_nat i) = Fail (Known IndexError).
Proof.
  intros Hle. unfold getitem.
  assert (H0 : (Z.of_nat i <? 0)%Z = false) by (apply Z.ltb_ge; lia).
  assert (H1 : (Z.of_nat (length l) <=? Z.of_nat i)%Z = true)
    by (apply Z.leb_le; lia).
  by rewrite !H0, H1.
Qed.

Lemma getitem_Done {A} (l : list A) idx (x : A) : getitem l idx = Done x → x ∈ l.
Proof.
  unfold getitem. destruct (_ || _); [done|].
  destruct (l !! _) as [y|] eqn:Hl; [|done]. intros [= <-].
  by apply list_elem_of_lookup_2 in Hl.
Qed.

Section pieces.
Variable markers : list pystr.

Lemma pieces_with_Done m1 pieces :
  getitem markers 1 = Done m1 →
  pieces_with markers pieces
  = Done (filter (λ p, contains p.2 m1 = true) pieces).
Proof.
  intros Hm. induction pieces as [|[i subs] pieces IH]; [done|].
  cbn [pieces_with]. rewrite Hm, IH. cbn [bind_outcome].
  destruct (contains subs m1) eqn:Hc.
  - by rewrite filter_cons_True.
  - rewrite filter_cons_False; [done|]. simpl. congruence.
Qed.

Lemma pieces_with_Fail e p pieces :
  getitem markers 1 = Fail e → pieces_with markers (p :: pieces) = Fail e.
Proof. intros Hm. destruct p as [i subs]. cbn [pieces_with]. by rewrite Hm. Qed.

End pieces.

Lemma split_loop_nonempty c sep' s : split_loop c sep' s ≠ [].
Proof. rewrite split_loop_unfold. by destruct (find s _). Qed.

Lemma split_loop_first c sep' s i :
  find s (c :: sep') = Some i →
  ∃ parts, split_loop c sep' s = take i s :: parts.
Proof. intros Hf. rewrite split_loop_unfold, Hf. by eexists. Qed.

Lemma split_loop_twice c sep' s i :
  find s (c :: sep') = Some i →
  find (drop (i + length (c :: sep')) s) (c :: sep') = None →
  split_loop c sep' s = [take i s; drop (i + length (c :: sep')) s].
Proof.
  intros Hf Hn. rewrite split_loop_unfold, Hf. f_equal.
  by rewrite split_loop_unfold, Hn.
Qed.

(** Every piece of a split is a part of the string. *)
Lemma split_loop_pieces c sep' s x :
  x ∈ split_loop c sep' s → ∃ p q, s = p ++ x ++ q.
Proof.
  funelim (split_loop c sep' s).
  - intros [->|Hx]%elem_of_cons.
    + exists [], (drop i s). by rewrite take_drop.
    + match goal with IH : ∀ x, _ → _ |- _ => apply IH in Hx as (p & q & Hs) end.
      pose proof (find_split _ _ _ Hf) as Hcut.
      exists (take i s ++ (c :: sep') ++ p), q.
      rewrite Hcut at 1. rewrite Hs at 1. by rewrite <- !app_assoc.
  - intros ->%list_elem_of_singleton. exists [], [].
    by rewrite app_nil_r.
Qed.

Lemma enumerate_elem {A} (l : list A) i (x : A) : (i, x) ∈ enumerate l → x ∈ l.
Proof.
  unfold enumerate. intros (j & Hj)%list_elem_of_lookup_1.
  rewrite list_lookup_imap in Hj. destruct (l !! j) as [y|] eqn:Hl; [|done].
  injection Hj as _ <-. by apply list_elem_of_lookup_2 in Hl.
Qed.

End mode1_facts.

Import builtins Py Py2 PyFacts occurrence_facts utils2 vocabulary2 mode1_facts.

(** X11: Mode 1 with the default [idx=None] never returns: the list of the
    pieces is indexed with [None], a [TypeError], unless an earlier step has
    raised already: [IndexError] with fewer than two markers, [ValueError]
    with a first marker that is empty once stripped. *)
Theorem extract_disorder_1_default_index {F} (np_float : pystr → option F)
    (string : pystr) (disorder_key : list pystr) :
  _extract_disorder_1 np_float string disorder_key None
  = match bare <$> disorder_key with
    | [] => Fail (Known IndexError)
    | [] :: _ => Fail (Known ValueError)
    | [_] => Fail (Known IndexError)
    | _ :: _ :: _ => Fail TypeError
    end.
Proof.
  unfold _extract_disorder_1. fold bare.
  destruct disorder_key as [|mk0 [|mk1 more]]; [done| |];
    cbn [fmap list_fmap]; destruct (bare mk0) as [|c m0]; try done.
  - rewrite (getitem_nonneg _ 0 (c :: m0)) by done.
    cbn [bind_outcome split known].
    destruct (split_loop c m0 string) as [|p ps] eqn:Hs;
      [by apply split_loop_nonempty in Hs|].
    unfold enumerate. cbn [imap].
    by rewrite (pieces_with_Fail _ (Known IndexError)) by reflexivity.
  - rewrite (getitem_nonneg _ 0 (c :: m0)) by done.
    cbn [bind_outcome split known].
    by rewrite (pieces_with_Done _ (bare mk1)) by (by apply (getitem_nonneg _ 1)).
Qed.

(** X12: Where mode 1 returns, it was given at least two markers and an index,
    the first marker is not empty once stripped, the second one is not
    empty either and occurs in the string, and the number returned is what
    [np.float] makes of a string. *)
Theorem extract_disorder_1_returns_only_if {F} (np_float : pystr → option F)
    (string : pystr) (disorder_key : list pystr) (idx : option Z)
    (rest : pystr) (disorder : F) :
  _extract_disorder_1 np_float string disorder_key idx = Done (rest, disorder) →
  ∃ mk0 mk1 more i,
    disorder_key = mk0 :: mk1 :: more ∧ idx = Some i
    ∧ bare mk0 ≠ [] ∧ bare mk1 ≠ []
    ∧ contains string (bare mk1) = true
    ∧ ∃ number, np_float number = Some disorder.
Proof.
  unfold _extract_disorder_1. fold bare.
  destruct disorder_key as [|mk0 [|mk1 more]]; [done| |];
    cbn [fmap list_fmap]; (destruct (bare mk0) as [|c m0] eqn:Hm0; [done|]);
    rewrite (getitem_nonneg _ 0 (c :: m0)) by done;
    cbn [bind_outcome split known].
  - destruct (split_loop c m0 string) as [|p ps] eqn:Hs;
      [by apply split_loop_nonempty in Hs|].
    unfold enumerate. cbn [imap].
    by rewrite (pieces_with_Fail _ (Known IndexError)) by reflexivity.
  - rewrite (pieces_with_Done _ (bare mk1)) by (by apply (getitem_nonneg _ 1)).
    cbn [bind_outcome].
    destruct idx as [i|]; [|done]. cbn [getitem_any].
    destruct (getitem _ i) as [[n subs]|e] eqn:Hg; [|done].
    apply getitem_Done, list_elem_of_filter in Hg as [Hc Hin]. simpl in Hc.
    apply enumerate_elem, split_loop_pieces in Hin as (p & q & Hstr).
    cbn [bind_outcome]. rewrite (getitem_nonneg _ 1 (bare mk1)) by done.
    cbn [bind_outcome snd fst]. destruct (bare mk1) as [|c1 m1] eqn:Hm1; [done|].
    cbn [split known bind_outcome].
    destruct (getitem (split_loop c1 m1 subs) 0) as [dis|e]; [|done].
    cbn [bind_outcome]. destruct (np_float _) as [d|] eqn:Hd; [|done].
    intros [= <- <-]. exists mk0, mk1, more, i.
    rewrite Hm0, Hm1. split_and!; try done; [|by eexists].
    apply contains_occurs in Hc as (x & y & ->). apply contains_occurs.
    exists (p ++ x), (y ++ q). rewrite Hstr. by rewrite <- !app_assoc.
Qed.

Lemma extract_disorder_1_returns_only_if_example :
  ∃ mk0 mk1 more i,
    ["dW"; "J"] = mk0 :: mk1 :: more ∧ Some 0%Z = Some i
    ∧ bare mk0 ≠ [] ∧ bare mk1 ≠ []
    ∧ contains "L8_dW1.5J2.0" (bare mk1) = true
    ∧ ∃ number, pyvalues.float_of_decimal number = Some (3 # 2)%Q.
Proof.
  apply (extract_disorder_1_returns_only_if pyvalues.float_of_decimal
           "L8_dW1.5J2.0" ["dW"; "J"] (Some 0%Z) "L8_dW2.0" (3 # 2)%Q).
  vm_compute. reflexivity.
Defined.

(** X13: Mode 1 as it is meant: where the string is [a], the first marker, the
    value, the second marker and [b], the first marker occurs nowhere else,
    the second one occurs neither in [a] nor in the value, and the value
    with the second marker behind it does not occur in [b], the call with
    the index 0 or -1 returns [a], the first marker and [b], and the number
    that [np.float] reads from the value with every [d] turned into an [e]
    and the underscores around it dropped. *)
Theorem extract_disorder_1_between_markers {F} (np_float : pystr → option F)
    (mk0 mk1 : pystr) (more : list pystr) (a v b : pystr) (idx : Z) (f : F) :
  idx = 0%Z ∨ idx = (-1)%Z →
  find (a ++ bare mk0 ++ v ++ bare mk1 ++ b) (bare mk0) = Some (length a) →
  find (v ++ bare mk1 ++ b) (bare mk0) = None →
  find a (bare mk1) = None →
  find (v ++ bare mk1 ++ b) (bare mk1) = Some (length v) →
  find b (v ++ bare mk1) = None →
  np_float (lstrip (rstrip (replace v "d" "e") "_") "_") = Some f →
  _extract_disorder_1 np_float (a ++ bare mk0 ++ v ++ bare mk1 ++ b)
    (mk0 :: mk1 :: more) (Some idx)
  = Done (a ++ bare mk0 ++ b, f).
Proof.
  intros Hidx H0 Ht0 Ha1 Ht1 Hb Hf.
  unfold _extract_disorder_1. fold bare. cbn [fmap list_fmap].
  destruct (bare mk0) as [|c0 m0] eqn:Hm0.
  { by rewrite find_startswith in Ht0 by apply startswith_nil. }
  destruct (bare mk1) as [|c1 m1] eqn:Hm1.
  { by rewrite find_startswith in Ha1 by apply startswith_nil. }
  set (t := v ++ (c1 :: m1) ++ b) in *.
  rewrite (getitem_nonneg _ 0 (c0 :: m0)) by done.
  cbn [bind_outcome split known].
  assert (Hsplit : split_loop c0 m0 (a ++ (c0 :: m0) ++ t) = [a; t]).
  { rewrite (split_loop_twice _ _ _ (length a) H0).
    - by rewrite take_app_length, <- drop_drop, drop_app_length, drop_app_length.
    - by rewrite <- drop_drop, drop_app_length, drop_app_length. }
  rewrite Hsplit.
  rewrite (pieces_with_Done _ (c1 :: m1)) by (by apply (getitem_nonneg _ 1)).
  cbn [bind_outcome]. change (enumerate [a; t]) with [(0, a); (1, t)].
  rewrite filter_cons_False by (unfold contains; simpl; by rewrite Ha1).
  rewrite filter_cons_True by (unfold contains; simpl; by rewrite Ht1).
  rewrite filter_nil.
  assert (Hget : getitem_any [(1, t)] (Some idx) = Done (1, t)).
  { by destruct Hidx as [-> | ->]. }
  rewrite Hget. cbn [bind_outcome snd fst].
  rewrite (getitem_nonneg _ 1 (c1 :: m1)) by done.
  cbn [bind_outcome split known].
  destruct (split_loop_first _ _ _ _ Ht1) as [parts ->].
  assert (Hv : take (length v) t = v) by (unfold t; by rewrite take_app_length).
  rewrite Hv. rewrite (getitem_nonneg _ 0 v) by done. cbn [bind_outcome].
  rewrite Hf.
  assert (Hrep : replace t (v ++ c1 :: m1) "" = b).
  { assert (Hst : find t (v ++ c1 :: m1) = Some 0).
    { apply find_startswith. unfold t. rewrite app_assoc. apply startswith_app. }
    assert (Hdrop : drop (0 + length (v ++ c1 :: m1)) t = b).
    { unfold t. rewrite app_assoc. apply drop_app_length. }
    rewrite replace_unfold, Hst, Hdrop by (by destruct v).
    rewrite replace_unfold, Hb by (by destruct v). done. }
  rewrite Hrep. done.
Qed.

Lemma extract_disorder_1_between_markers_example :
  _extract_disorder_1 pyvalues.float_of_decimal
    ("L8_" ++ bare "_dW" ++ "1.5" ++ bare "J_" ++ "2.0") ["_dW"; "J_"] (Some (-1)%Z)
  = Done ("L8_" ++ bare "_dW" ++ "2.0", (3 # 2)%Q).
Proof.
  apply (extract_disorder_1_between_markers pyvalues.float_of_decimal
           "_dW" "J_" [] "L8_" "1.5" "2.0" (-1)%Z (3 # 2)%Q);
    first [by right | vm_compute; reflexivity].
Defined.

(** ** The script [main_lvl_var_partial.py] *)

Import builtins Py2 main_lvl_var_partial delete_facts.

(** X19: The script never gets to its body: whatever the command line holds,
    it ends with the exception of a parser, with a [KeyError] where one of
    the four keys of [_sff_parse_dict] is missing from what the parser
    returns, or, with the four values at hand, with the [ValueError] of
    unpacking four values into six names. *)
Theorem main_never_reaches_body {V E T}
    (arg_parser_general arg_parser : outcome (pydict V * E))
    (body : V * V * V * V * V * V → pydict V → pydict V → outcome T) :
  main arg_parser_general arg_parser body
  = match arg_parser_general, arg_parser with
    | Fail e, _ => Fail e
    | Done _, Fail e => Fail e
    | Done (sffDict, _), Done _ =>
        if decide (Forall (λ key, key ∈ keys sffDict) _sff_parse_dict_keys)
        then Fail (Known ValueError)
        else Fail KeyError
    end.
Proof.
  unfold main. destruct arg_parser_general as [[sffDict sffextra]|e]; [|done].
  destruct arg_parser as [[argsDict extra]|e]; [|done]. cbn [bind_outcome].
  unfold _sff_parse_dict_keys, dict_getitem. cbn [comprehension].
  destruct (decide _) as [Hall|Hnot].
  - rewrite !Forall_cons in Hall. destruct Hall as (H1 & H2 & H3 & H4 & _).
    destruct (get sffDict "lvl_min_tau") eqn:E1; [|by apply get_None in E1].
    destruct (get sffDict "lvl_max_tau") eqn:E2; [|by apply get_None in E2].
    destruct (get sffDict "lvl_n_tau") eqn:E3; [|by apply get_None in E3].
    destruct (get sffDict "lvl_unfolding_n") eqn:E4; [|by apply get_None in E4].
    done.
  - destruct (get sffDict "lvl_min_tau") eqn:E1; [|done].
    destruct (get sffDict "lvl_max_tau") eqn:E2; [|done].
    destruct (get sffDict "lvl_n_tau") eqn:E3; [|done].
    destruct (get sffDict "lvl_unfolding_n") eqn:E4; [|done].
    destruct Hnot. repeat apply Forall_cons_2; try apply Forall_nil_2;
      apply dec_stable; rewrite <- get_None; congruence.
Qed.
